(** * Log: a process-wide logger (log.hpp / log.cpp)

    A shallow embedding of the logger's static state, of its write
    pipeline ([writeLog], [outputToTarget]), of the read-back path
    ([getLogFromFile]) and of the one-time initialisation ([Init],
    [Instance]); a model of threads that make these calls under
    [m_LogMutex]; then the properties of the specification.

    Conventions of the embedding.
    - [char] and [wchar_t] are integers; a (wide) string is the list of
      its code units without the terminating NUL.
    - The static members of [Log] are the fields of the record [Log];
      console, file system, locale and heap form the record [World].
    - Functions with effects live in the monad [M]: state passing over
      [Sys] with an outcome that is either a value or a raised
      exception, the state reached so far being kept in both cases.
    - The local arrays that receive a converted text ([wTimeBuffer],
      [Format]) have the number of elements that the source declares.
      A write past the end of an array is undefined in C++; what a
      build makes of it is a matter of its frame layout, of which the
      model takes one number from the platform: the wide characters
      past the end of an array that a call can write without changing
      anything it uses ([slack]; 0 is the reading of the standard). A
      write beyond them ends the call as [array_overrun], after which
      nothing is said about it. The capacity that is passed to
      [snprintf], [swprintf] and [vswprintf] is applied as the C
      standard describes it.
    - Opening a file for appending fails on the paths of [no_append];
      the stream is then not open, and what is inserted into it is
      dropped.
    - The sequential functions leave [m_LogMutex] out: a call takes it
      on entry and its guard releases it on every way out. The mutex
      is part of the thread model, whose writer executes the very
      statements of [writeLog] ([writeLog_as_statements]). *)

From Stdlib Require Import ZArith Ascii String Decimal.
From stdpp Require Import base option list gmap.

Local Open Scope Z_scope.

(** ** Text *)

Abbreviation char := Z (only parsing).
Abbreviation wchar_t := Z (only parsing).
Abbreviation cstring := (list Z) (only parsing).
Abbreviation wstring := (list Z) (only parsing).

(** A literal: the code units of an ASCII string. *)
Definition L (s : string) : list Z :=
  (λ c, Z.of_N (N_of_ascii c)) <$> list_ascii_of_string s.

Definition NL : Z := 10.

(** [std::wstring(n, c)] *)
Definition wstring_fill (n : nat) (c : wchar_t) : wstring := replicate n c.

Definition isspace (c : Z) : bool :=
  bool_decide (c = 32 ∨ 9 ≤ c ≤ 13).

Definition isdigit (c : Z) : bool := bool_decide (48 ≤ c ≤ 57).

(** ** Decimal output of integers *)

Fixpoint digits (d : Decimal.uint) : list Z :=
  match d with
  | Nil => []
  | D0 d => 48 :: digits d
  | D1 d => 49 :: digits d
  | D2 d => 50 :: digits d
  | D3 d => 51 :: digits d
  | D4 d => 52 :: digits d
  | D5 d => 53 :: digits d
  | D6 d => 54 :: digits d
  | D7 d => 55 :: digits d
  | D8 d => 56 :: digits d
  | D9 d => 57 :: digits d
  end.

(** Decimal digits of the magnitude of [z]. *)
Definition dec_abs (z : Z) : list Z := digits (N.to_uint (Z.abs_N z)).

(** The value an [int] argument has when it is read by [%d]. *)
Definition to_int32 (z : Z) : Z := (z + 2 ^ 31) mod 2 ^ 32 - 2 ^ 31.

(** The value an [unsigned] argument has when it is read by [%u]. *)
Definition to_uint32 (z : Z) : Z := z mod 2 ^ 32.

(** ** A model of the printf family

    The fragment of the C format language that the logger relies on:
    ordinary characters, [%%], and directives made of the flags [-]
    (left-justify, [lj]) and [0] (pad with zeros, [zp]), a decimal
    minimum field width, an optional [l] and one of the conversions
    [d], [u], [s].  Anything else, and a directive without
    a matching argument, has no defined result ([None]). *)

Inductive conv := conv_d | conv_u | conv_s.

Inductive piece :=
  | Lit (c : Z)
  | Dir (lj zp : bool) (width : nat) (cv : conv).

Inductive pstate :=
  | Plain
  | Flags (lj zp : bool)
  | Width (lj zp : bool) (w : nat)
  | Length (lj zp : bool) (w : nat).

Definition conv_of (c : Z) : option conv :=
  if bool_decide (c = 100) then Some conv_d
  else if bool_decide (c = 117) then Some conv_u
  else if bool_decide (c = 115) then Some conv_s
  else None.

Fixpoint parse_format (st : pstate) (fmt : list Z) : option (list piece) :=
  match fmt with
  | [] => match st with Plain => Some [] | _ => None end
  | c :: fmt' =>
    let finish lj zp w :=
      cv ← conv_of c; ps ← parse_format Plain fmt'; Some (Dir lj zp w cv :: ps) in
    match st with
    | Plain =>
      if bool_decide (c = 37) then parse_format (Flags false false) fmt'
      else ps ← parse_format Plain fmt'; Some (Lit c :: ps)
    | Flags lj zp =>
      if bool_decide (c = 37) then
        if negb lj && negb zp then ps ← parse_format Plain fmt'; Some (Lit 37 :: ps)
        else None
      else if bool_decide (c = 45) then parse_format (Flags true zp) fmt'
      else if bool_decide (c = 48) then parse_format (Flags lj true) fmt'
      else if isdigit c then parse_format (Width lj zp (Z.to_nat (c - 48))) fmt'
      else if bool_decide (c = 108) then parse_format (Length lj zp 0) fmt'
      else finish lj zp 0%nat
    | Width lj zp w =>
      if isdigit c then parse_format (Width lj zp (10 * w + Z.to_nat (c - 48))) fmt'
      else if bool_decide (c = 108) then parse_format (Length lj zp w) fmt'
      else finish lj zp w
    | Length lj zp w => finish lj zp w
    end
  end.

Inductive arg :=
  | AInt (z : Z)
  | AStr (s : list Z).

(** Padding of a converted value to the minimum field width. *)
Definition pad (lj zp : bool) (width : nat) (sign body : list Z) : list Z :=
  let n := (width - length (sign ++ body))%nat in
  if lj then sign ++ body ++ replicate n 32
  else if zp then sign ++ replicate n 48 ++ body
  else replicate n 32 ++ sign ++ body.

Definition convert (lj zp : bool) (width : nat) (cv : conv) (a : arg)
  : option (list Z) :=
  match cv, a with
  | conv_d, AInt z =>
    let v := to_int32 z in
    Some (pad lj zp width (if bool_decide (v < 0) then [45] else []) (dec_abs v))
  | conv_u, AInt z => Some (pad lj zp width [] (dec_abs (to_uint32 z)))
  | conv_s, AStr s => Some (pad lj false width [] s)
  | _, _ => None
  end.

Fixpoint render (ps : list piece) (args : list arg) : option (list Z) :=
  match ps with
  | [] => Some []
  | Lit c :: ps' => out ← render ps' args; Some (c :: out)
  | Dir lj zp w cv :: ps' =>
    match args with
    | [] => None
    | a :: args' =>
      s ← convert lj zp w cv a; out ← render ps' args'; Some (s ++ out)
    end
  end.

(** The complete expansion of a format. *)
Definition format_text (fmt : list Z) (args : list arg) : option (list Z) :=
  ps ← parse_format Plain fmt; render ps args.

(** [snprintf(buf, n, fmt, ...)], [swprintf(buf, n, fmt, ...)] and
    [vswprintf(buf, n, fmt, args)]: at most [n] code units are stored,
    the terminating NUL included, so the text found in [buf] is the
    expansion cut to [n - 1]. *)
Definition snprintf (n : nat) (fmt : cstring) (args : list arg) : option cstring :=
  take (n - 1) <$> format_text fmt args.

Definition swprintf (n : nat) (fmt : wstring) (args : list arg) : option wstring :=
  take (n - 1) <$> format_text fmt args.

Definition vswprintf (n : nat) (fmt : wstring) (args : list arg) : option wstring :=
  take (n - 1) <$> format_text fmt args.

(** ** Data model (log.hpp) *)

Inductive LOGLEVEL :=
  | LOG_LEVEL_NONE
  | LOG_LEVEL_ERROR
  | LOG_LEVEL_WARNING
  | LOG_LEVEL_DEBUG
  | LOG_LEVEL_INFO.

(** The enumerator values, which the comparison in [writeLog] uses. *)
Definition LOGLEVEL_val (l : LOGLEVEL) : Z :=
  match l with
  | LOG_LEVEL_NONE => 0
  | LOG_LEVEL_ERROR => 1
  | LOG_LEVEL_WARNING => 2
  | LOG_LEVEL_DEBUG => 3
  | LOG_LEVEL_INFO => 4
  end.

Inductive LOGTARGET :=
  | LOG_TARGET_NONE
  | LOG_TARGET_CONSOLE
  | LOG_TARGET_FILE
  | LOG_TARGET_CONSOLE_AND_FILE.

Definition LOGTARGET_val (t : LOGTARGET) : Z :=
  match t with
  | LOG_TARGET_NONE => 0
  | LOG_TARGET_CONSOLE => 1
  | LOG_TARGET_FILE => 2
  | LOG_TARGET_CONSOLE_AND_FILE => 3
  end.

(** [a & b], as a condition *)
Definition target_and (a b : LOGTARGET) : bool :=
  bool_decide (Z.land (LOGTARGET_val a) (LOGTARGET_val b) ≠ 0).

(** The display names, keyed by enumerator value; [LOG_LEVEL_NONE] has
    no entry. *)
Definition LOGLEVEL_WSTRING : gmap Z (list Z) :=
  list_to_map
    [ (LOGLEVEL_val LOG_LEVEL_ERROR, L "ERROR");
      (LOGLEVEL_val LOG_LEVEL_WARNING, L "WARNING");
      (LOGLEVEL_val LOG_LEVEL_DEBUG, L "DEBUG");
      (LOGLEVEL_val LOG_LEVEL_INFO, L "INFO") ].

(** [struct tm], the fields that [getCurrentLocalTime] prints *)
Record tm := mk_tm {
  tm_year : Z; tm_mon : Z; tm_mday : Z;
  tm_hour : Z; tm_min : Z; tm_sec : Z }.

(** What a call reads from the platform: the ANSI code page behind
    [MultiByteToWideChar], the local time, the ids returned by
    [getpid] and [gettid], the size of a pointer ([sizeof _Format] for
    a [const char*]), and for a local array of [n] wide characters the
    number of wide characters past its end that the frame of the call
    lets it write without harm. *)
Record Env := mk_Env {
  MultiByteToWideChar : cstring → wstring;
  localtime : tm;
  getpid : Z;
  gettid : Z;
  sizeof_pointer : nat;
  slack : nat → nat }.

(** The wide characters that can be written from the start of a local
    array declared with [n] elements. *)
Definition array_room (env : Env) (n : nat) : nat := (n + slack env n)%nat.

(** The static members of [class Log]; [m_Log] is the address held by
    the shared pointer, [m_ResourceFlag] tells whether the once-flag
    has been consumed. *)
Record Log := mk_Log {
  m_Log : option nat;
  m_wstrLogBuffer : wstring;
  m_wstrLogFile : wstring;
  m_LogLevel : LOGLEVEL;
  m_LogTarget : LOGTARGET;
  m_ResourceFlag : bool }.

(** What the logger does to its surroundings, in order. [InitRun] marks
    one execution of the body of [Init] with its arguments. *)
Inductive event :=
  | ConsoleWrite (text : wstring)
  | FileAppend (path text : wstring)
  | InitRun (lvl : LOGLEVEL) (tgt : LOGTARGET) (path : wstring).

(** Standard output, the files by path, the number of file streams
    that are open, the C locale, the next free heap address, the
    events so far, and the paths that cannot be opened for appending
    (a directory that does not exist, a file that may not be written).
    Every other path can be opened for appending, the file being
    created when absent; a file can be opened for reading when it
    exists. *)
Record World := mk_World {
  console : wstring;
  files : gmap (list Z) (list Z);
  open_files : nat;
  locale : cstring;
  heap_next : nat;
  trace : list event;
  no_append : gset (list Z) }.

Record Sys := mk_Sys { statics : Log; world : World }.

(** The definitions of the static members (log.cpp). The buffer is
    list-initialised with [{ 0 }]: one NUL code unit. *)
Definition Log_initial : Log :=
  {| m_Log := None;
     m_wstrLogBuffer := [0];
     m_wstrLogFile := L "./Log.txt";
     m_LogLevel := LOG_LEVEL_NONE;
     m_LogTarget := LOG_TARGET_NONE;
     m_ResourceFlag := false |}.

Definition World_initial : World :=
  {| console := []; files := ∅; open_files := 0%nat; locale := L "C";
     heap_next := 0%nat; trace := []; no_append := ∅ |}.

Definition Sys_initial : Sys := {| statics := Log_initial; world := World_initial |}.

(** A code page that maps every byte to the code unit of the same
    value, as every ANSI code page does on ASCII text. *)
Definition codepage_ascii : cstring → wstring := λ s, s.

(** ** The monad of effects *)

(** What ends a call before its last statement: the exception of
    [unordered_map::at]; a formatting call without a defined result;
    a write past the room of a local array. After the last two the
    behaviour is undefined, and nothing is said about the call. *)
Inductive exception := out_of_range | undefined_format | array_overrun.

Inductive outcome (A : Type) :=
  | Return (a : A)
  | Throw (e : exception).
Arguments Return {A} a.
Arguments Throw {A} e.

Definition M (A : Type) : Type := Sys → outcome A * Sys.

#[global] Instance M_ret : MRet M := λ A a s, (Return a, s).
#[global] Instance M_bind : MBind M := λ A B f m s,
  match m s with
  | (Return a, s') => f a s'
  | (Throw e, s') => (Throw e, s')
  end.

Definition throw {A} (e : exception) : M A := λ s, (Throw e, s).
Definition gets {A} (f : Log → A) : M A := λ s, (Return (f (statics s)), s).
Definition modify_statics (f : Log → Log) : M unit :=
  λ s, (Return (), {| statics := f (statics s); world := world s |}).
Definition modify_world (f : World → World) : M unit :=
  λ s, (Return (), {| statics := statics s; world := f (world s) |}).
Definition skip : M unit := mret ().
Definition when (b : bool) (m : M unit) : M unit := if b then m else skip.

(** The result of a formatting call that has one. *)
Definition defined {A} (o : option A) : M A :=
  match o with Some a => mret a | None => throw undefined_format end.

(** The state and the outcome of a run. *)
Definition exec {A} (m : M A) (s : Sys) : Sys := (m s).2.
Definition result {A} (m : M A) (s : Sys) : outcome A := (m s).1.

(** The events a run adds to the trace. *)
Definition emitted {A} (m : M A) (s : Sys) : list event :=
  drop (length (trace (world s))) (trace (world (exec m s))).

Definition is_output (e : event) : bool :=
  match e with ConsoleWrite _ | FileAppend _ _ => true | InitRun _ _ _ => false end.

(** ** Field updates *)

Definition set_m_Log (p : option nat) (g : Log) : Log :=
  {| m_Log := p; m_wstrLogBuffer := m_wstrLogBuffer g; m_wstrLogFile := m_wstrLogFile g;
     m_LogLevel := m_LogLevel g; m_LogTarget := m_LogTarget g;
     m_ResourceFlag := m_ResourceFlag g |}.
Definition set_m_wstrLogBuffer (b : wstring) (g : Log) : Log :=
  {| m_Log := m_Log g; m_wstrLogBuffer := b; m_wstrLogFile := m_wstrLogFile g;
     m_LogLevel := m_LogLevel g; m_LogTarget := m_LogTarget g;
     m_ResourceFlag := m_ResourceFlag g |}.
Definition set_m_wstrLogFile (p : wstring) (g : Log) : Log :=
  {| m_Log := m_Log g; m_wstrLogBuffer := m_wstrLogBuffer g; m_wstrLogFile := p;
     m_LogLevel := m_LogLevel g; m_LogTarget := m_LogTarget g;
     m_ResourceFlag := m_ResourceFlag g |}.
Definition set_m_LogLevel (l : LOGLEVEL) (g : Log) : Log :=
  {| m_Log := m_Log g; m_wstrLogBuffer := m_wstrLogBuffer g; m_wstrLogFile := m_wstrLogFile g;
     m_LogLevel := l; m_LogTarget := m_LogTarget g;
     m_ResourceFlag := m_ResourceFlag g |}.
Definition set_m_LogTarget (t : LOGTARGET) (g : Log) : Log :=
  {| m_Log := m_Log g; m_wstrLogBuffer := m_wstrLogBuffer g; m_wstrLogFile := m_wstrLogFile g;
     m_LogLevel := m_LogLevel g; m_LogTarget := t;
     m_ResourceFlag := m_ResourceFlag g |}.
Definition set_m_ResourceFlag (b : bool) (g : Log) : Log :=
  {| m_Log := m_Log g; m_wstrLogBuffer := m_wstrLogBuffer g; m_wstrLogFile := m_wstrLogFile g;
     m_LogLevel := m_LogLevel g; m_LogTarget := m_LogTarget g;
     m_ResourceFlag := b |}.

Definition set_console (c : wstring) (w : World) : World :=
  {| console := c; files := files w; open_files := open_files w; locale := locale w;
     heap_next := heap_next w; trace := trace w; no_append := no_append w |}.
Definition set_files (m : gmap (list Z) (list Z)) (w : World) : World :=
  {| console := console w; files := m; open_files := open_files w; locale := locale w;
     heap_next := heap_next w; trace := trace w; no_append := no_append w |}.
Definition set_open_files (n : nat) (w : World) : World :=
  {| console := console w; files := files w; open_files := n; locale := locale w;
     heap_next := heap_next w; trace := trace w; no_append := no_append w |}.
Definition set_locale (l : cstring) (w : World) : World :=
  {| console := console w; files := files w; open_files := open_files w; locale := l;
     heap_next := heap_next w; trace := trace w; no_append := no_append w |}.
Definition set_heap_next (n : nat) (w : World) : World :=
  {| console := console w; files := files w; open_files := open_files w; locale := locale w;
     heap_next := n; trace := trace w; no_append := no_append w |}.
Definition log_event (e : event) (w : World) : World :=
  {| console := console w; files := files w; open_files := open_files w; locale := locale w;
     heap_next := heap_next w; trace := trace w ++ [e]; no_append := no_append w |}.

(** ** The surroundings: streams, files, locale, heap *)

(** [std::wcout << text] *)
Definition wcout_insert (text : wstring) : M unit :=
  modify_world (λ w, log_event (ConsoleWrite text) (set_console (console w ++ text) w)).

(** The path can be opened for appending. *)
Definition can_append (path : wstring) (w : World) : bool :=
  bool_decide (path ∉ no_append w).

(** [wofstream::open(path, std::ios::app)], with [is_open()] afterwards:
    when the open fails nothing is created and the stream is not
    open; no exception is raised. *)
Definition wofstream_open_app (path : wstring) : M bool :=
  λ s, if can_append path (world s)
       then (Return true,
             {| statics := statics s;
                world := set_open_files (S (open_files (world s)))
                           (set_files (<[path := default [] (files (world s) !! path)]>
                                         (files (world s))) (world s)) |})
       else (Return false, s).

(** [stream << text] on the stream that [open] was called on for
    [path]: nothing is written to a stream that is not open. *)
Definition wofstream_insert (is_open : bool) (path text : wstring) : M unit :=
  if is_open then
    modify_world (λ w,
      log_event (FileAppend path text)
        (set_files (<[path := default [] (files w !! path) ++ text]> (files w)) w))
  else skip.

(** [close] of a file stream that is open *)
Definition fstream_close : M unit :=
  modify_world (λ w, set_open_files (pred (open_files w)) w).

(** [close] of the stream that [open] was called on for appending:
    nothing to close when the open has failed. *)
Definition wofstream_close (is_open : bool) : M unit :=
  if is_open then fstream_close else skip.

(** [setlocale(LC_ALL, name)] *)
Definition setlocale (name : cstring) : M unit := modify_world (set_locale name).

(** [new Log()]: a fresh address *)
Definition new_Log : M nat :=
  λ s, (Return (heap_next (world s)),
        {| statics := statics s;
           world := set_heap_next (S (heap_next (world s))) (world s) |}).

(** ** The registry: getters and setters *)

Definition getLogLevel : M LOGLEVEL := gets m_LogLevel.
Definition setLogLevel (_LogLevel : LOGLEVEL) : M unit :=
  modify_statics (set_m_LogLevel _LogLevel).
Definition getLogTarget : M LOGTARGET := gets m_LogTarget.
Definition setLogTarget (_LogTarget : LOGTARGET) : M unit :=
  modify_statics (set_m_LogTarget _LogTarget).
Definition getLogFile : M wstring := gets m_wstrLogFile.
Definition setLogFile (_Path : wstring) : M unit :=
  modify_statics (set_m_wstrLogFile _Path).

(** ** Initialisation *)

Definition Init (_LogLevel : LOGLEVEL) (_LogTarget : LOGTARGET) (_Path : wstring)
  : M unit :=
  modify_world (log_event (InitRun _LogLevel _LogTarget _Path));;
  p ← gets m_Log;
  when (bool_decide (p = None))
    (a ← new_Log; modify_statics (set_m_Log (Some a)));;
  setLogLevel _LogLevel;;
  setLogTarget _LogTarget;;
  setLogFile _Path;;
  setlocale (L "chs").

(** [std::call_once(m_ResourceFlag, f)]: the flag is consumed when [f]
    returns, and stays as it is when [f] throws. *)
Definition call_once (f : M unit) : M unit :=
  called ← gets m_ResourceFlag;
  if (called : bool) then skip
  else f;; modify_statics (set_m_ResourceFlag true).

Definition Instance : M (option nat) :=
  lvl ← gets m_LogLevel;
  tgt ← gets m_LogTarget;
  path ← gets m_wstrLogFile;
  call_once (Init lvl tgt path);;
  gets m_Log.

(** ** The write pipeline *)

(** [StrToWStr(_SrcBuf, _DstBuf)] for a [_DstBuf] that is a local
    array of [n] elements. [MultiByteToWideChar] is first asked for
    the length of the converted text, terminating NUL included, and
    then writes that many wide characters to [_DstBuf], whatever the
    size of the array. The result is the text that the caller reads
    back from the array: the converted text when the write stays within
    the room of the array, no defined text otherwise. *)
Definition StrToWStr (env : Env) (_SrcBuf : cstring) (n : nat) : M wstring :=
  let text := MultiByteToWideChar env _SrcBuf in
  if bool_decide (length text + 1 ≤ array_room env n)%nat then mret text
  else throw array_overrun.

Definition getCurrentLocalTime (tmNow : tm) : cstring :=
  default []
    (snprintf 20 (L "%d-%02d-%02d %02d:%02d:%02d")
       [AInt (tm_year tmNow + 1900); AInt (tm_mon tmNow + 1); AInt (tm_mday tmNow);
        AInt (tm_hour tmNow); AInt (tm_min tmNow); AInt (tm_sec tmNow)]).

(** [m_wstrLogBuffer += text] *)
Definition append (text : wstring) : M unit :=
  modify_statics (λ g, set_m_wstrLogBuffer (m_wstrLogBuffer g ++ text) g).

(** [m_wstrLogBuffer.clear()] *)
Definition clear : M unit := modify_statics (set_m_wstrLogBuffer []).

(** The entry of [LOGLEVEL_WSTRING] for a level, if there is one. *)
Definition LOGLEVEL_WSTRING_find (_LogLevel : LOGLEVEL) : option wstring :=
  LOGLEVEL_WSTRING !! LOGLEVEL_val _LogLevel.

(** [LOGLEVEL_WSTRING.at(level)] *)
Definition LOGLEVEL_WSTRING_at (_LogLevel : LOGLEVEL) : M wstring :=
  match LOGLEVEL_WSTRING_find _LogLevel with
  | Some name => mret name
  | None => throw out_of_range
  end.

Definition outputToTarget : M unit :=
  target ← getLogTarget;
  when (target_and target LOG_TARGET_CONSOLE)
    (buf ← gets m_wstrLogBuffer; wcout_insert buf);;
  when (target_and target LOG_TARGET_FILE)
    (path ← gets m_wstrLogFile;
     is_open ← wofstream_open_app path;
     buf ← gets m_wstrLogBuffer;
     wofstream_insert is_open path buf;;
     wofstream_close is_open).

(** The variadic arguments are the list [args]. [timeBuffer] holds
    the time stamp; [wTimeBuffer] is declared with [strlen(timeBuffer)]
    elements and [Format] with [sizeof _Format] elements, the size of
    the pointer. *)
Definition writeLog (env : Env) (_LogLevel : LOGLEVEL) (_FileName _Function : wstring)
    (_LineNumber : Z) (_Format : cstring) (args : list arg) : M unit :=
  threshold ← gets m_LogLevel;
  if bool_decide (LOGLEVEL_val _LogLevel > LOGLEVEL_val threshold) then skip
  else
    old ← gets m_wstrLogBuffer;
    when (bool_decide (length old ≠ 0%nat)) clear;;
    append [NL];;
    append (wstring_fill 60 42);;
    append (L " ");;
    (name ← LOGLEVEL_WSTRING_at _LogLevel; append name);;
    append (L " ");;
    append (wstring_fill 60 42);;
    append [NL];;
    (wTimeBuffer ← StrToWStr env (getCurrentLocalTime (localtime env))
                     (length (getCurrentLocalTime (localtime env)));
     append wTimeBuffer);;
    logInfo ← defined
      (swprintf 100 (L " [PID : %-5d] [TID : %-5d] [%-ls] [%-ls : %-4d] ")
         [AInt (getpid env); AInt (gettid env); AStr _FileName; AStr _Function;
          AInt _LineNumber]);
    append logInfo;;
    Format ← StrToWStr env _Format (sizeof_pointer env);
    logInfo2 ← defined (vswprintf 256 Format args);
    append logInfo2;;
    append [NL];;
    append (wstring_fill 60 42);;
    append (L " ");;
    (name ← LOGLEVEL_WSTRING_at _LogLevel; append name);;
    append (L " ");;
    append (wstring_fill 60 42);;
    append [NL];;
    outputToTarget.

(** ** The read-back path *)

(** A [std::wifstream] that is open: the input not yet consumed and the
    state bits. *)
Record wifstream := mk_wifstream {
  pending : wstring;
  eofbit : bool;
  failbit : bool }.

Definition good (f : wifstream) : bool := negb (eofbit f) && negb (failbit f).

Fixpoint skip_ws (s : wstring) : wstring :=
  match s with
  | c :: s' => if isspace c then skip_ws s' else s
  | [] => []
  end.

(** The longest prefix without white space, and what follows it. *)
Fixpoint read_word (s : wstring) : wstring * wstring :=
  match s with
  | c :: s' =>
    if isspace c then ([], s)
    else let '(w, r) := read_word s' in (c :: w, r)
  | [] => ([], [])
  end.

(** [f >> line] for an empty [line]: leading white space is skipped;
    at the end of the input nothing is stored and both bits are set;
    otherwise the characters up to the next white space are stored, and
    [eofbit] is set when the input ends there. *)
Definition extract (f : wifstream) : wstring * wifstream :=
  match skip_ws (pending f) with
  | [] => ([], {| pending := []; eofbit := true; failbit := true |})
  | c :: s =>
    let '(w, r) := read_word (c :: s) in
    (w, {| pending := r; eofbit := bool_decide (r = []); failbit := false |})
  end.

(** The loop of [getLogFromFile], bounded by [fuel] iterations. *)
Fixpoint read_loop (fuel : nat) (f : wifstream) (_LogTable : list wstring)
  : option (list wstring) :=
  if good f then
    match fuel with
    | O => None
    | S fuel' =>
      let '(line, f') := extract f in
      read_loop fuel' f' (_LogTable ++ [line])
    end
  else Some _LogTable.

(** [wifstream::open]: the stream on the content of the file, if the
    file exists. *)
Definition wifstream_open (path : wstring) : M (option wifstream) :=
  λ s, match files (world s) !! path with
       | Some c =>
         (Return (Some {| pending := c; eofbit := false; failbit := false |}),
          {| statics := statics s;
             world := set_open_files (S (open_files (world s))) (world s) |})
       | None => (Return None, s)
       end.

(** [_LogTable] is passed by reference: the vector after the call is
    returned next to the result. By [read_loop_fuel] the bound given
    to the loop is never reached. *)
Definition getLogFromFile (_LogTable : list wstring) : M (bool * list wstring) :=
  path ← gets m_wstrLogFile;
  wFileInput ← wifstream_open path;
  match wFileInput with
  | None => mret (false, _LogTable)
  | Some f =>
    let table := default _LogTable (read_loop (S (length (pending f))) f _LogTable) in
    fstream_close;;
    mret (true, table)
  end.

(** ** Vocabulary of the specification *)

(** A banner: 60 marker characters, a space, the display name, a space,
    60 marker characters. *)
Definition banner (name : wstring) : wstring :=
  replicate 60 42 ++ L " " ++ name ++ L " " ++ replicate 60 42.

(** An integer printed by [%-wd]. *)
Definition int_field (w : nat) (z : Z) : wstring :=
  pad true false w (if bool_decide (to_int32 z < 0) then [45] else [])
    (dec_abs (to_int32 z)).

(** The metadata block before it is cut to the capacity of [logInfo]. *)
Definition metadata (pid tid : Z) (file function : wstring) (line : Z) : wstring :=
  L " [PID : " ++ int_field 5 pid ++ L "] [TID : " ++ int_field 5 tid ++
  L "] [" ++ file ++ L "] [" ++ function ++ L " : " ++ int_field 4 line ++ L "] ".

(** The time stamp as it reaches the buffer. *)
Definition timestamp (env : Env) : wstring :=
  MultiByteToWideChar env (getCurrentLocalTime (localtime env)).

(** The conversions of a call stay within the room of their arrays:
    the time stamp with its NUL within [wTimeBuffer], the format with
    its NUL within [Format]. *)
Definition time_fits (env : Env) : Prop :=
  (length (timestamp env) + 1
   ≤ array_room env (length (getCurrentLocalTime (localtime env))))%nat.

Definition format_fits (env : Env) (_Format : cstring) : Prop :=
  (length (MultiByteToWideChar env _Format) + 1 ≤ array_room env (sizeof_pointer env))%nat.

Definition fits (env : Env) (_Format : cstring) : Prop :=
  time_fits env ∧ format_fits env _Format.

(** The block that [writeLog] composes. *)
Definition block (env : Env) (name file function : wstring) (line : Z) (message : wstring)
  : wstring :=
  [NL] ++ banner name ++ [NL] ++ timestamp env ++
  take 99 (metadata (getpid env) (gettid env) file function line) ++
  message ++ [NL] ++ banner name ++ [NL].


(** The bits of a target mask. *)
Definition console_bit (t : LOGTARGET) : bool := Z.testbit (LOGTARGET_val t) 0.
Definition file_bit (t : LOGTARGET) : bool := Z.testbit (LOGTARGET_val t) 1.

(** A run emits output when it adds a console or a file write to the
    trace. *)
Definition emits_output {A} (m : M A) (s : Sys) : Prop :=
  filter is_output (emitted m s) ≠ [].

Definition is_InitRun (e : event) : bool := negb (is_output e).

(** The registry: level, target mask and path. *)
Definition configuration (s : Sys) : LOGLEVEL * LOGTARGET * wstring :=
  (m_LogLevel (statics s), m_LogTarget (statics s), m_wstrLogFile (statics s)).

(** White-space separated words of a text, first to last. [cur] is the
    word being read. *)
Fixpoint words_from (cur : wstring) (s : wstring) : list wstring :=
  match s with
  | [] => if bool_decide (cur = []) then [] else [cur]
  | c :: s' =>
    if isspace c then
      (if bool_decide (cur = []) then [] else [cur]) ++ words_from [] s'
    else words_from (cur ++ [c]) s'
  end.

Definition words (s : wstring) : list wstring := words_from [] s.

(** The text is empty or ends in white space. *)
Definition ends_blank (s : wstring) : bool :=
  match last s with
  | Some c => isspace c
  | None => true
  end.

(** [n] calls of [Instance] in a row, with their results. *)
Fixpoint Instance_times (n : nat) : M (list (option nat)) :=
  match n with
  | O => mret []
  | S n' => p ← Instance; ps ← Instance_times n'; mret (p :: ps)
  end.

(** The display names, level by level. *)
Definition display_name (l : LOGLEVEL) : wstring :=
  match l with
  | LOG_LEVEL_NONE => []
  | LOG_LEVEL_ERROR => L "ERROR"
  | LOG_LEVEL_WARNING => L "WARNING"
  | LOG_LEVEL_DEBUG => L "DEBUG"
  | LOG_LEVEL_INFO => L "INFO"
  end.

(** The world after one write of [buf] to the console, and after one
    append of [buf] to the file at [path]. *)
Definition console_written (buf : wstring) (w : World) : World :=
  log_event (ConsoleWrite buf) (set_console (console w ++ buf) w).

Definition file_appended (path buf : wstring) (w : World) : World :=
  log_event (FileAppend path buf)
    (set_files (<[path := default [] (files w !! path) ++ buf]> (files w)) w).

(** The world after the dispatch of [buf] under the mask [t]: the
    file is appended to when the mask has the bit and the path can be
    opened. *)
Definition dispatched (t : LOGTARGET) (path buf : wstring) (w : World) : World :=
  let w1 := if console_bit t then console_written buf w else w in
  if file_bit t && can_append path w then file_appended path buf w1 else w1.

(** The state with another buffer. *)
Definition with_buffer (b : wstring) (s : Sys) : Sys :=
  {| statics := set_m_wstrLogBuffer b (statics s); world := world s |}.

(** The state after one run of the body of [Init]. *)
Definition initialised (l : LOGLEVEL) (t : LOGTARGET) (p : wstring) (s : Sys) : Sys :=
  {| statics :=
       {| m_Log := Some (default (heap_next (world s)) (m_Log (statics s)));
          m_wstrLogBuffer := m_wstrLogBuffer (statics s);
          m_wstrLogFile := p;
          m_LogLevel := l;
          m_LogTarget := t;
          m_ResourceFlag := m_ResourceFlag (statics s) |};
     world :=
       {| console := console (world s);
          files := files (world s);
          open_files := open_files (world s);
          locale := L "chs";
          heap_next := match m_Log (statics s) with
                       | Some _ => heap_next (world s)
                       | None => S (heap_next (world s))
                       end;
          trace := trace (world s) ++ [InitRun l t p];
          no_append := no_append (world s) |} |}.

(** ** Threads under [m_LogMutex] *)

(** One call of [writeLog]: its arguments, and what the calling thread
    reads from the platform. *)
Record call := mk_call {
  c_env : Env;
  c_level : LOGLEVEL;
  c_file : wstring;
  c_function : wstring;
  c_line : Z;
  c_format : cstring;
  c_args : list arg }.

Definition writeLog_call (c : call) : M unit :=
  writeLog (c_env c) (c_level c) (c_file c) (c_function c) (c_line c) (c_format c)
    (c_args c).

(** The statements of [writeLog] that follow the level test, in the
    order of the source; a thread executes them one at a time. *)
Definition writeLog_statements (c : call) : list (M unit) :=
  [ (old ← gets m_wstrLogBuffer; when (bool_decide (length old ≠ 0%nat)) clear);
    append [NL];
    append (wstring_fill 60 42);
    append (L " ");
    (name ← LOGLEVEL_WSTRING_at (c_level c); append name);
    append (L " ");
    append (wstring_fill 60 42);
    append [NL];
    (wTimeBuffer ← StrToWStr (c_env c) (getCurrentLocalTime (localtime (c_env c)))
                     (length (getCurrentLocalTime (localtime (c_env c))));
     append wTimeBuffer);
    (logInfo ← defined
       (swprintf 100 (L " [PID : %-5d] [TID : %-5d] [%-ls] [%-ls : %-4d] ")
          [AInt (getpid (c_env c)); AInt (gettid (c_env c)); AStr (c_file c);
           AStr (c_function c); AInt (c_line c)]);
     append logInfo);
    (Format ← StrToWStr (c_env c) (c_format c) (sizeof_pointer (c_env c));
     logInfo2 ← defined (vswprintf 256 Format (c_args c));
     append logInfo2);
    append [NL];
    append (wstring_fill 60 42);
    append (L " ");
    (name ← LOGLEVEL_WSTRING_at (c_level c); append name);
    append (L " ");
    append (wstring_fill 60 42);
    append [NL];
    outputToTarget ].

Fixpoint run_statements (l : list (M unit)) : M unit :=
  match l with
  | [] => skip
  | a :: l' => a;; run_statements l'
  end.

(** [std::shared_mutex]: held exclusively or not, and the number of
    shared holders. *)
Record shared_mutex := mk_shared_mutex {
  exclusive : bool;
  shared_count : nat }.

Definition unlocked : shared_mutex := {| exclusive := false; shared_count := 0 |}.

(** [lock] succeeds when nobody holds the mutex, [lock_shared] when
    nobody holds it exclusively; otherwise the caller waits. *)
Definition try_lock (m : shared_mutex) : option shared_mutex :=
  if negb (exclusive m) && bool_decide (shared_count m = 0%nat)
  then Some {| exclusive := true; shared_count := 0 |}
  else None.

Definition unlock (m : shared_mutex) : shared_mutex :=
  {| exclusive := false; shared_count := shared_count m |}.

Definition try_lock_shared (m : shared_mutex) : option shared_mutex :=
  if exclusive m then None
  else Some {| exclusive := false; shared_count := S (shared_count m) |}.

Definition unlock_shared (m : shared_mutex) : shared_mutex :=
  {| exclusive := exclusive m; shared_count := pred (shared_count m) |}.

(** Where a thread stands. A writer is in a call of [writeLog]: before
    the [scoped_lock], at the level test, within the statements that
    follow, or back from the call. A reader is in a call of
    [getLogFromFile]: before the [shared_lock], about to open the file,
    in the loop with the stream and the vector so far, or back. *)
Inductive thread :=
  | W_start (c : call)
  | W_test (c : call)
  | W_body (c : call) (rest : list (M unit))
  | W_done (c : call) (o : outcome unit)
  | R_start (_LogTable : list wstring)
  | R_locked (_LogTable : list wstring)
  | R_loop (f : wifstream) (_LogTable : list wstring)
  | R_done (r : bool * list wstring).

(** One step of a thread on the mutex and the shared state; [None]
    when the thread waits for the mutex or has returned. Leaving the
    call, by [return] or by an exception, releases the lock. *)
Definition thread_step (m : shared_mutex) (s : Sys) (th : thread)
  : option (shared_mutex * Sys * thread) :=
  match th with
  | W_start c => m' ← try_lock m; Some (m', s, W_test c)
  | W_test c =>
    if bool_decide (LOGLEVEL_val (c_level c) > LOGLEVEL_val (m_LogLevel (statics s)))
    then Some (unlock m, s, W_done c (Return ()))
    else Some (m, s, W_body c (writeLog_statements c))
  | W_body c [] => Some (unlock m, s, W_done c (Return ()))
  | W_body c (a :: rest) =>
    match a s with
    | (Return _, s') => Some (m, s', W_body c rest)
    | (Throw e, s') => Some (unlock m, s', W_done c (Throw e))
    end
  | W_done _ _ => None
  | R_start t => m' ← try_lock_shared m; Some (m', s, R_locked t)
  | R_locked t =>
    match wifstream_open (m_wstrLogFile (statics s)) s with
    | (Return (Some f), s') => Some (m, s', R_loop f t)
    | (_, s') => Some (unlock_shared m, s', R_done (false, t))
    end
  | R_loop f t =>
    if good f then
      let '(line, f') := extract f in Some (m, s, R_loop f' (t ++ [line]))
    else Some (unlock_shared m, exec fstream_close s, R_done (true, t))
  | R_done _ => None
  end.

(** The mutex, the state of the logger and of its surroundings, and
    the threads. *)
Record config := mk_config {
  mutex : shared_mutex;
  shared : Sys;
  threads : list thread }.

(** Thread [i] takes a step. *)
Definition step_thread (i : nat) (cfg : config) : option config :=
  th ← threads cfg !! i;
  r ← thread_step (mutex cfg) (shared cfg) th;
  Some {| mutex := r.1.1; shared := r.1.2; threads := <[i := r.2]> (threads cfg) |}.

Definition step (cfg cfg' : config) : Prop := ∃ i, step_thread i cfg = Some cfg'.

(** Any interleaving of steps. *)
Definition steps : config → config → Prop := rtc step.

Definition is_start (th : thread) : bool :=
  match th with W_start _ | R_start _ => true | _ => false end.

Definition is_done (th : thread) : bool :=
  match th with W_done _ _ | R_done _ => true | _ => false end.

(** The thread holds the mutex in exclusive, respectively shared,
    mode. *)
Definition in_exclusive (th : thread) : bool :=
  match th with W_test _ | W_body _ _ => true | _ => false end.

Definition in_shared (th : thread) : bool :=
  match th with R_locked _ | R_loop _ _ => true | _ => false end.

Definition has_stream (th : thread) : bool :=
  match th with R_loop _ _ => true | _ => false end.

Definition count (P : thread → bool) (pool : list thread) : nat :=
  sum_list ((λ th, Nat.b2n (P th)) <$> pool).

(** A configuration before any step: the mutex free, every thread
    before its lock. *)
Definition initial (cfg : config) : Prop :=
  mutex cfg = unlocked ∧ Forall (λ th, is_start th = true) (threads cfg).

(** Every thread is back from its call. *)
Definition all_done (cfg : config) : Prop :=
  Forall (λ th, is_done th = true) (threads cfg).

Definition call_of (th : thread) : option call :=
  match th with
  | W_start c | W_test c | W_body c _ | W_done c _ => Some c
  | _ => None
  end.

(** The calls of [writeLog] that the threads of a pool make. *)
Definition writer_calls (pool : list thread) : list call := omap call_of pool.

(** The state after the calls of [order], one after the other. *)
Definition serial (order : list call) (s : Sys) : Sys :=
  foldl (λ s c, exec (writeLog_call c) s) s order.


(** The block that a passing call composes. *)
Definition block_of (c : call) : wstring :=
  block (c_env c) (display_name (c_level c)) (c_file c) (c_function c) (c_line c)
    (default [] (vswprintf 256 (MultiByteToWideChar (c_env c) (c_format c)) (c_args c))).

(** What one step of a thread does to the thread and to the mutex. *)
Inductive transition : shared_mutex → thread → shared_mutex → thread → Prop :=
  | t_lock m c :
      exclusive m = false → shared_count m = 0%nat →
      transition m (W_start c) {| exclusive := true; shared_count := 0 |} (W_test c)
  | t_enter m c : transition m (W_test c) m (W_body c (writeLog_statements c))
  | t_next m c a rest : transition m (W_body c (a :: rest)) m (W_body c rest)
  | t_leave m th c o :
      in_exclusive th = true → call_of th = Some c →
      transition m th (unlock m) (W_done c o)
  | t_lock_shared m t :
      exclusive m = false →
      transition m (R_start t) {| exclusive := false; shared_count := S (shared_count m) |}
        (R_locked t)
  | t_open m t f : transition m (R_locked t) m (R_loop f t)
  | t_read m t f t' f' : transition m (R_loop f t) m (R_loop f' t')
  | t_leave_shared m th r :
      in_shared th = true → transition m th (unlock_shared m) (R_done r).

(** The calls of [writeLog] that have returned. *)
Definition done_call (th : thread) : option call :=
  match th with W_done c _ => Some c | _ => None end.

Definition done_calls (pool : list thread) : list call := omap done_call pool.

(** The mutex agrees with the threads: it is held exclusively exactly
    when one writer is between its lock and its return, its number of
    shared holders is the number of readers between their lock and
    their return, and the two modes exclude each other. *)
Definition consistent (cfg : config) : Prop :=
  count in_exclusive (threads cfg) = Nat.b2n (exclusive (mutex cfg)) ∧
  count in_shared (threads cfg) = shared_count (mutex cfg) ∧
  (exclusive (mutex cfg) = true → shared_count (mutex cfg) = 0%nat).

(** The state with [k] more open streams. *)
Definition more_streams (k : nat) (s : Sys) : Sys :=
  {| statics := statics s;
     world := set_open_files (k + open_files (world s)) (world s) |}.

(** The shared state is the one that the calls of [hist], made one
    after the other from [s0], lead to: exactly so at the level test
    of a writer, up to the statements the writer has still to execute
    within its call, and up to the streams that readers hold open when
    no writer holds the mutex. [hist] lists the calls that have
    returned. *)
Definition serialised (s0 : Sys) (hist : list call) (cfg : config) : Prop :=
  hist ≡ₚ done_calls (threads cfg) ∧
  (∀ i c, threads cfg !! i = Some (W_test c) → shared cfg = serial hist s0) ∧
  (∀ i c rest, threads cfg !! i = Some (W_body c rest) →
     exec (run_statements rest) (shared cfg) = exec (writeLog_call c) (serial hist s0)) ∧
  (count in_exclusive (threads cfg) = 0%nat →
     shared cfg = more_streams (count has_stream (threads cfg)) (serial hist s0)).

(** A bound on the iterations that the loop of a reader has left. *)
Definition loop_bound (f : wifstream) : nat :=
  if good f then S (length (pending f)) else 0%nat.


(** A call of [writeLog] with sample arguments. *)
Definition call_sample (lvl : LOGLEVEL) (tid : Z) (n : Z) : call :=
  {| c_env := {| MultiByteToWideChar := codepage_ascii;
                 localtime := mk_tm 123 1 9 8 5 3;
                 getpid := 4242;
                 gettid := tid;
                 sizeof_pointer := 8;
                 slack := λ _, 1%nat |};
     c_level := lvl;
     c_file := L "log.cpp";
     c_function := L "main";
     c_line := 12;
     c_format := L "hello %d";
     c_args := [AInt n] |}.

(** ** Sample data *)

(** A build with pointers of 8 bytes in which one wide character past
    the end of a local array can be written without harm. *)
Definition env_sample : Env :=
  {| MultiByteToWideChar := codepage_ascii;
     localtime := mk_tm 123 1 9 8 5 3;
     getpid := 4242;
     gettid := 7;
     sizeof_pointer := 8;
     slack := λ _, 1%nat |}.

(** The same platform in the reading of the C++ standard: nothing may
    be written past the end of an array. *)
Definition env_strict : Env :=
  {| MultiByteToWideChar := codepage_ascii;
     localtime := mk_tm 123 1 9 8 5 3;
     getpid := 4242;
     gettid := 7;
     sizeof_pointer := 8;
     slack := λ _, 0%nat |}.

(** The registry set to the most verbose level, both targets, and the
    file of the scenario. *)
Definition Sys_sample : Sys :=
  exec (Init LOG_LEVEL_INFO LOG_TARGET_CONSOLE_AND_FILE (L "./t.log")) Sys_initial.

(** The same with the file as only target. *)
Definition Sys_sample_file : Sys :=
  exec (Init LOG_LEVEL_INFO LOG_TARGET_FILE (L "./t.log")) Sys_initial.

(** The same without any target. *)
Definition Sys_sample_mute : Sys :=
  exec (Init LOG_LEVEL_INFO LOG_TARGET_NONE (L "./t.log")) Sys_initial.

(** Threshold WARNING, console only. *)
Definition Sys_sample_warning : Sys :=
  exec (Init LOG_LEVEL_WARNING LOG_TARGET_CONSOLE (L "./t.log")) Sys_initial.

(** Both targets, with a path in a directory that does not exist. *)
Definition Sys_sample_no_dir : Sys :=
  exec (Init LOG_LEVEL_INFO LOG_TARGET_CONSOLE_AND_FILE (L "./no/such/dir/t.log"))
    {| statics := Log_initial;
       world :=
         {| console := []; files := ∅; open_files := 0%nat; locale := L "C";
            heap_next := 0%nat; trace := [];
            no_append := {[ L "./no/such/dir/t.log" ]} |} |}.

(** The state after one INFO call on [Sys_sample]. *)
Definition Sys_logged : Sys :=
  exec (writeLog_call (call_sample LOG_LEVEL_INFO 7 5)) Sys_sample.

Definition config_sample : config :=
  {| mutex := unlocked;
     shared := Sys_sample;
     threads := [W_start (call_sample LOG_LEVEL_INFO 7 5); R_start [];
                 W_start (call_sample LOG_LEVEL_ERROR 8 6)] |}.

(** ** Further vocabulary *)

(** [P] holds of the [n] integers from [lo] upwards. *)
Fixpoint Zall (n : nat) (lo : Z) (P : Z → bool) : bool :=
  match n with
  | O => true
  | S n' => if P lo then Zall n' (lo + 1) P else false
  end.

(** A number written with exactly two, and with exactly four, decimal
    digits. *)
Definition two_digits (z : Z) : list Z := [48 + z / 10; 48 + z mod 10].

Definition four_digits (z : Z) : list Z :=
  [48 + z / 1000; 48 + z / 100 mod 10; 48 + z / 10 mod 10; 48 + z mod 10].

(** A date and time of day with a year of four digits. *)
Definition tm_in_range (t : tm) : Prop :=
  1000 ≤ tm_year t + 1900 ≤ 9999 ∧ 0 ≤ tm_mon t ≤ 11 ∧ 1 ≤ tm_mday t ≤ 31 ∧
  0 ≤ tm_hour t ≤ 23 ∧ 0 ≤ tm_min t ≤ 59 ∧ 0 ≤ tm_sec t ≤ 60.



(** What the reader at position [i] of the pool has seen. [pool0] is
    the pool before any step and [hist] lists the calls of [writeLog]
    that have returned, in the order of their returns. A reader that
    has opened the file holds the content that the file has after the
    calls of some prefix [h] of [hist], made one after the other from
    [s0]: finishing its loop gives the vector that a call of
    [getLogFromFile] returns in that state. *)
Definition reader_view (s0 : Sys) (pool0 : list thread) (hist : list call) (i : nat)
    (th : thread) : Prop :=
  match th with
  | R_start t | R_locked t => pool0 !! i = Some (R_start t)
  | R_loop f t =>
    ∃ t0 h table,
      pool0 !! i = Some (R_start t0) ∧ h `prefix_of` hist ∧
      result (getLogFromFile t0) (serial h s0) = Return (true, table) ∧
      read_loop (loop_bound f) f t = Some table
  | R_done r =>
    ∃ t0 h,
      pool0 !! i = Some (R_start t0) ∧ h `prefix_of` hist ∧
      result (getLogFromFile t0) (serial h s0) = Return r
  | _ => True
  end.

Definition snapshots (s0 : Sys) (pool0 : list thread) (hist : list call) (cfg : config)
  : Prop :=
  ∀ i th, threads cfg !! i = Some th → reader_view s0 pool0 hist i th.

(** [config_sample] after its reader has run alone. *)
Definition config_sample_read : config :=
  {| mutex := unlocked;
     shared := Sys_sample;
     threads := [W_start (call_sample LOG_LEVEL_INFO 7 5); R_done (false, []);
                 W_start (call_sample LOG_LEVEL_ERROR 8 6)] |}.

(** * Properties *)

(** ** The monad *)

Lemma bind_Return {A B} (m : M A) (f : A → M B) s a s' :
  m s = (Return a, s') → (m ≫= f) s = f a s'.
Proof. intros H. unfold mbind, M_bind. by rewrite H. Qed.

(** ** Level filter *)

Lemma writeLog_filtered env lvl file function line fmt args s :
  LOGLEVEL_val lvl > LOGLEVEL_val (m_LogLevel (statics s)) →
  writeLog env lvl file function line fmt args s = (Return (), s).
Proof.
  intros Hgt. unfold writeLog.
  rewrite (bind_Return _ _ s (m_LogLevel (statics s)) s) by done.
  by rewrite bool_decide_eq_true_2.
Qed.

(** ** Formatting *)

Lemma pad_width_0 body : pad true false 0 [] body = body.
Proof. unfold pad. simpl. by rewrite app_nil_r. Qed.

(** The metadata directive always has a result: its five arguments
    match its five conversions. *)
Lemma metadata_swprintf pid tid file function line :
  swprintf 100 (L " [PID : %-5d] [TID : %-5d] [%-ls] [%-ls : %-4d] ")
    [AInt pid; AInt tid; AStr file; AStr function; AInt line]
  = Some (take 99 (metadata pid tid file function line)).
Proof.
  unfold swprintf, format_text.
  let p := eval vm_compute in
    (parse_format Plain (L " [PID : %-5d] [TID : %-5d] [%-ls] [%-ls : %-4d] ")) in
  change (parse_format Plain (L " [PID : %-5d] [TID : %-5d] [%-ls] [%-ls : %-4d] ")) with p.
  cbn [mbind option_bind render convert fmap option_fmap option_map].
  rewrite !pad_width_0. reflexivity.
Qed.

(** The time stamp always has a result. *)
Lemma getCurrentLocalTime_defined tmNow :
  snprintf 20 (L "%d-%02d-%02d %02d:%02d:%02d")
    [AInt (tm_year tmNow + 1900); AInt (tm_mon tmNow + 1); AInt (tm_mday tmNow);
     AInt (tm_hour tmNow); AInt (tm_min tmNow); AInt (tm_sec tmNow)]
  = Some (getCurrentLocalTime tmNow).
Proof.
  unfold getCurrentLocalTime, snprintf, format_text.
  let p := eval vm_compute in (parse_format Plain (L "%d-%02d-%02d %02d:%02d:%02d")) in
  change (parse_format Plain (L "%d-%02d-%02d %02d:%02d:%02d")) with p.
  reflexivity.
Qed.

Lemma at_display_name lvl :
  lvl ≠ LOG_LEVEL_NONE →
  LOGLEVEL_WSTRING_find lvl = Some (display_name lvl).
Proof. destruct lvl; [done | by vm_compute ..]. Qed.

Lemma at_NONE : LOGLEVEL_WSTRING_find LOG_LEVEL_NONE = None.
Proof. by vm_compute. Qed.

(** ** Running [writeLog] *)

Lemma clear_if_nonempty_run s :
  when (bool_decide (length (m_wstrLogBuffer (statics s)) ≠ 0%nat)) clear s
  = (Return (), with_buffer [] s).
Proof. destruct s as [[p b f l t r] w]. destruct b; reflexivity. Qed.

Lemma append_bind {B} text (k : unit → M B) b s :
  (append text ≫= k) (with_buffer b s) = k () (with_buffer (b ++ text) s).
Proof. reflexivity. Qed.

Lemma mret_bind {A B} (a : A) (k : A → M B) s : (mret a ≫= k) s = k a s.
Proof. reflexivity. Qed.

Lemma throw_bind {A B} e (k : A → M B) s : (throw e ≫= k) s = (Throw e, s).
Proof. reflexivity. Qed.

Lemma bind_assoc {A B C} (m : M A) (k : A → M B) (h : B → M C) s :
  ((m ≫= k) ≫= h) s = (m ≫= λ a, k a ≫= h) s.
Proof. unfold mbind, M_bind. by destruct (m s) as [[a|e] s']. Qed.

(** A conversion that stays within the room of its array gives the
    converted text; one that does not ends the call. *)
Lemma StrToWStr_fits {B} env src n (k : wstring → M B) s :
  (length (MultiByteToWideChar env src) + 1 ≤ array_room env n)%nat →
  (StrToWStr env src n ≫= k) s = k (MultiByteToWideChar env src) s.
Proof. intros H. unfold StrToWStr. by rewrite bool_decide_eq_true_2. Qed.

Lemma StrToWStr_overrun {B} env src n (k : wstring → M B) s :
  ¬ (length (MultiByteToWideChar env src) + 1 ≤ array_room env n)%nat →
  (StrToWStr env src n ≫= k) s = (Throw array_overrun, s).
Proof. intros H. unfold StrToWStr. by rewrite bool_decide_eq_false_2. Qed.

Ltac run_appends :=
  repeat first
    [ rewrite append_bind | rewrite bind_assoc | rewrite mret_bind | rewrite throw_bind ].

Ltac enter_writeLog s :=
  unfold writeLog;
  rewrite (bind_Return _ _ s (m_LogLevel (statics s)) s) by done;
  rewrite bool_decide_eq_false_2 by lia;
  rewrite (bind_Return _ _ s (m_wstrLogBuffer (statics s)) s) by done;
  rewrite (bind_Return _ _ _ _ _ (clear_if_nonempty_run s)).

(** A call that passes the filter, with a display name, conversions
    that fit and a defined message, composes [block] and dispatches
    it. *)
Lemma writeLog_passes env lvl file function line fmt args s name message :
  LOGLEVEL_val lvl ≤ LOGLEVEL_val (m_LogLevel (statics s)) →
  LOGLEVEL_WSTRING_find lvl = Some name →
  fits env fmt →
  vswprintf 256 (MultiByteToWideChar env fmt) args = Some message →
  writeLog env lvl file function line fmt args s
  = outputToTarget (with_buffer (block env name file function line message) s).
Proof.
  intros Hle Hname [Ht Hf] Hmsg. enter_writeLog s.
  rewrite metadata_swprintf. unfold LOGLEVEL_WSTRING_at, defined. rewrite Hname.
  run_appends. rewrite (StrToWStr_fits _ _ _ _ _ Ht). run_appends.
  rewrite (StrToWStr_fits _ _ _ _ _ Hf), Hmsg. run_appends. do 2 f_equal.
  unfold block, banner, wstring_fill, timestamp. by rewrite <- !app_assoc.
Qed.

(** Without a display name the lookup throws after the first three
    appends. *)
Lemma writeLog_no_name env lvl file function line fmt args s :
  LOGLEVEL_val lvl ≤ LOGLEVEL_val (m_LogLevel (statics s)) →
  LOGLEVEL_WSTRING_find lvl = None →
  writeLog env lvl file function line fmt args s
  = (Throw out_of_range, with_buffer ([NL] ++ replicate 60 42 ++ L " ") s).
Proof.
  intros Hle Hname. enter_writeLog s.
  unfold LOGLEVEL_WSTRING_at. rewrite Hname.
  run_appends. reflexivity.
Qed.

(** A time stamp that does not fit [wTimeBuffer] stops the call
    after the opening banner. *)
Lemma writeLog_time_overrun env lvl file function line fmt args s name :
  LOGLEVEL_val lvl ≤ LOGLEVEL_val (m_LogLevel (statics s)) →
  LOGLEVEL_WSTRING_find lvl = Some name →
  ¬ time_fits env →
  writeLog env lvl file function line fmt args s
  = (Throw array_overrun, with_buffer ([NL] ++ banner name ++ [NL]) s).
Proof.
  intros Hle Hname Ht. enter_writeLog s.
  unfold LOGLEVEL_WSTRING_at. rewrite Hname.
  run_appends. rewrite (StrToWStr_overrun _ _ _ _ _ Ht). do 2 f_equal.
  unfold banner, wstring_fill. by rewrite <- !app_assoc.
Qed.

(** A format that does not fit [Format] stops the call after the
    metadata. *)
Lemma writeLog_format_overrun env lvl file function line fmt args s name :
  LOGLEVEL_val lvl ≤ LOGLEVEL_val (m_LogLevel (statics s)) →
  LOGLEVEL_WSTRING_find lvl = Some name →
  time_fits env → ¬ format_fits env fmt →
  writeLog env lvl file function line fmt args s
  = (Throw array_overrun,
     with_buffer ([NL] ++ banner name ++ [NL] ++ timestamp env ++
                  take 99 (metadata (getpid env) (gettid env) file function line)) s).
Proof.
  intros Hle Hname Ht Hf. enter_writeLog s.
  rewrite metadata_swprintf. unfold LOGLEVEL_WSTRING_at, defined. rewrite Hname.
  run_appends. rewrite (StrToWStr_fits _ _ _ _ _ Ht). run_appends.
  rewrite (StrToWStr_overrun _ _ _ _ _ Hf). do 2 f_equal.
  unfold banner, wstring_fill, timestamp. by rewrite <- !app_assoc.
Qed.

(** A format without a defined expansion stops the call before the
    message is appended. *)
Lemma writeLog_undefined env lvl file function line fmt args s name :
  LOGLEVEL_val lvl ≤ LOGLEVEL_val (m_LogLevel (statics s)) →
  LOGLEVEL_WSTRING_find lvl = Some name →
  fits env fmt →
  vswprintf 256 (MultiByteToWideChar env fmt) args = None →
  writeLog env lvl file function line fmt args s
  = (Throw undefined_format,
     with_buffer ([NL] ++ banner name ++ [NL] ++ timestamp env ++
                  take 99 (metadata (getpid env) (gettid env) file function line)) s).
Proof.
  intros Hle Hname [Ht Hf] Hmsg. enter_writeLog s.
  rewrite metadata_swprintf. unfold LOGLEVEL_WSTRING_at, defined. rewrite Hname.
  run_appends. rewrite (StrToWStr_fits _ _ _ _ _ Ht). run_appends.
  rewrite (StrToWStr_fits _ _ _ _ _ Hf), Hmsg. run_appends. do 2 f_equal.
  unfold banner, wstring_fill, timestamp. by rewrite <- !app_assoc.
Qed.

(** A call whose conversions do not both fit stops at the first one
    that overruns, before the dispatch. *)
Lemma writeLog_overrun env lvl file function line fmt args s name :
  LOGLEVEL_val lvl ≤ LOGLEVEL_val (m_LogLevel (statics s)) →
  LOGLEVEL_WSTRING_find lvl = Some name →
  ¬ fits env fmt →
  ∃ b, writeLog env lvl file function line fmt args s
       = (Throw array_overrun, with_buffer b s).
Proof.
  intros Hle Hname Hfits.
  destruct (decide (length (timestamp env) + 1
                    ≤ array_room env (length (getCurrentLocalTime (localtime env))))%nat)
    as [Ht | Ht].
  - eexists. apply writeLog_format_overrun; [done .. |].
    intros Hf. apply Hfits. by split.
  - eexists. by apply writeLog_time_overrun.
Qed.

(** The conversions fit or they do not. *)
Lemma fits_dec env fmt : fits env fmt ∨ ¬ fits env fmt.
Proof.
  unfold fits, time_fits, format_fits.
  destruct (decide (length (timestamp env) + 1
                    ≤ array_room env (length (getCurrentLocalTime (localtime env))))%nat);
    destruct (decide (length (MultiByteToWideChar env fmt) + 1
                      ≤ array_room env (sizeof_pointer env))%nat); tauto.
Qed.

(** The ways through [writeLog]: the early return; an exception or an
    undefined step, with the state as it was up to the buffer; the
    dispatch of a whole block. *)
Lemma writeLog_cases env lvl file function line fmt args s :
  (LOGLEVEL_val lvl > LOGLEVEL_val (m_LogLevel (statics s)) ∧
   writeLog env lvl file function line fmt args s = (Return (), s)) ∨
  (LOGLEVEL_val lvl ≤ LOGLEVEL_val (m_LogLevel (statics s)) ∧
   ∃ e b, writeLog env lvl file function line fmt args s = (Throw e, with_buffer b s)) ∨
  (LOGLEVEL_val lvl ≤ LOGLEVEL_val (m_LogLevel (statics s)) ∧
   ∃ name message,
     LOGLEVEL_WSTRING_find lvl = Some name ∧
     fits env fmt ∧
     vswprintf 256 (MultiByteToWideChar env fmt) args = Some message ∧
     writeLog env lvl file function line fmt args s
     = outputToTarget (with_buffer (block env name file function line message) s)).
Proof.
  destruct (decide (LOGLEVEL_val lvl ≤ LOGLEVEL_val (m_LogLevel (statics s)))) as [Hle|Hgt].
  2: { left. split; [lia |]. apply writeLog_filtered. lia. }
  right.
  destruct (LOGLEVEL_WSTRING_find lvl) as [name|] eqn:Hname.
  2: { left. split; [done |]. eexists _, _. by apply writeLog_no_name. }
  destruct (fits_dec env fmt) as [Hfits | Hfits].
  2: { left. split; [done |].
       destruct (writeLog_overrun env lvl file function line fmt args s _ Hle Hname Hfits)
         as [b Hb].
       by eexists _, _. }
  destruct (vswprintf 256 (MultiByteToWideChar env fmt) args) as [message|] eqn:Hmsg.
  - right. split; [done |]. exists name, message. do 3 (split; [done |]).
    by apply writeLog_passes.
  - left. split; [done |]. eexists _, _. by apply writeLog_undefined.
Qed.

Lemma target_and_console t : target_and t LOG_TARGET_CONSOLE = console_bit t.
Proof. by destruct t. Qed.

Lemma target_and_file t : target_and t LOG_TARGET_FILE = file_bit t.
Proof. by destruct t. Qed.

Lemma outputToTarget_run s :
  outputToTarget s
  = (Return (),
     {| statics := statics s;
        world := dispatched (m_LogTarget (statics s)) (m_wstrLogFile (statics s))
                   (m_wstrLogBuffer (statics s)) (world s) |}).
Proof.
  unfold outputToTarget, getLogTarget.
  rewrite (bind_Return _ _ s (m_LogTarget (statics s)) s) by done.
  rewrite target_and_console, target_and_file. unfold dispatched.
  destruct s as [g [c fs n l h tr na]].
  destruct (console_bit _), (file_bit _);
    unfold when, skip, mbind, M_bind, mret, M_ret, gets, wcout_insert, wofstream_open_app,
      wofstream_insert, wofstream_close, fstream_close, modify_world, file_appended,
      console_written, log_event, set_files, set_open_files, set_console, can_append;
    cbn; try reflexivity;
    case_bool_decide; cbn; rewrite ?lookup_insert_eq, ?insert_insert_eq; reflexivity.
Qed.

Lemma emitted_app {A} (m : M A) s evs :
  trace (world (exec m s)) = trace (world s) ++ evs → emitted m s = evs.
Proof. intros H. unfold emitted. rewrite H. apply drop_app_length. Qed.

Lemma trace_dispatched t path buf w :
  trace (dispatched t path buf w)
  = trace w ++ (if console_bit t then [ConsoleWrite buf] else []) ++
               (if file_bit t && can_append path w then [FileAppend path buf] else []).
Proof.
  unfold dispatched. destruct (console_bit t), (file_bit t), (can_append path w); cbn;
    by rewrite <- ?app_assoc, ?app_nil_r.
Qed.

Lemma console_dispatched t path buf w :
  console (dispatched t path buf w) = console w ++ (if console_bit t then buf else []).
Proof.
  unfold dispatched. destruct (console_bit t), (file_bit t), (can_append path w); cbn;
    by rewrite ?app_nil_r.
Qed.

Lemma files_dispatched t path buf w :
  files (dispatched t path buf w)
  = if file_bit t && can_append path w
    then <[path := default [] (files w !! path) ++ buf]> (files w)
    else files w.
Proof. unfold dispatched. by destruct (console_bit t), (file_bit t), (can_append path w). Qed.



(** ** Dispatch *)

(** C3, as the code has it. The dispatcher always returns normally,
    with the static members untouched. Under the mask [t] held by the
    registry it writes the buffer to the console exactly when bit 0 of
    [t] is set, and appends it to the configured file exactly when bit
    1 is set and the file can be opened for appending; when bit 1 is
    set and the open fails, nothing is written to any file and nothing
    tells the caller. The writes it performs are, in this order, the
    console write and the file append, each with the whole buffer, so
    that both occur with the same content when both bits are set and
    the file can be opened; with no bit set nothing changes at all. *)
Theorem outputToTarget_by_mask s :
  let t := m_LogTarget (statics s) in
  let path := m_wstrLogFile (statics s) in
  let buf := m_wstrLogBuffer (statics s) in
  let s' := exec outputToTarget s in
  let to_file := file_bit t && can_append path (world s) in
  result outputToTarget s = Return () ∧
  statics s' = statics s ∧
  emitted outputToTarget s
    = (if console_bit t then [ConsoleWrite buf] else []) ++
      (if to_file then [FileAppend path buf] else []) ∧
  (ConsoleWrite buf ∈ emitted outputToTarget s ↔ console_bit t = true) ∧
  (FileAppend path buf ∈ emitted outputToTarget s
   ↔ file_bit t = true ∧ can_append path (world s) = true) ∧
  console (world s') = console (world s) ++ (if console_bit t then buf else []) ∧
  files (world s')
    = (if to_file
       then <[path := default [] (files (world s) !! path) ++ buf]> (files (world s))
       else files (world s)) ∧
  (t = LOG_TARGET_CONSOLE_AND_FILE → can_append path (world s) = true →
     emitted outputToTarget s = [ConsoleWrite buf; FileAppend path buf]) ∧
  (can_append path (world s) = false →
     files (world s') = files (world s) ∧
     emitted outputToTarget s = (if console_bit t then [ConsoleWrite buf] else [])) ∧
  (t = LOG_TARGET_NONE → s' = s).
Proof.
  intros t path buf s' to_file.
  assert (Hrun := outputToTarget_run s). fold t path buf in Hrun.
  assert (Hem : emitted outputToTarget s
    = (if console_bit t then [ConsoleWrite buf] else []) ++
      (if to_file then [FileAppend path buf] else [])).
  { apply emitted_app. unfold exec. rewrite Hrun. cbn. apply trace_dispatched. }
  subst s' to_file. unfold result, exec. rewrite Hrun. cbn [fst snd statics world].
  rewrite console_dispatched, files_dispatched, Hem.
  do 3 (split; [done |]).
  split; [| split; [| split; [done |]]].
  - destruct (console_bit t), (file_bit t), (can_append path (world s)); cbn;
      rewrite ?elem_of_cons, ?elem_of_nil; intuition congruence.
  - destruct (console_bit t), (file_bit t), (can_append path (world s)); cbn;
      rewrite ?elem_of_cons, ?elem_of_nil; intuition congruence.
  - split; [done |]. split; [by intros -> -> |]. split.
    + intros ->. by rewrite andb_false_r, app_nil_r.
    + intros Ht. rewrite Ht. cbn. by destruct s.
Qed.

Lemma outputToTarget_by_mask_witness :
  emitted outputToTarget Sys_logged
  = [ConsoleWrite (m_wstrLogBuffer (statics Sys_logged));
     FileAppend (m_wstrLogFile (statics Sys_logged)) (m_wstrLogBuffer (statics Sys_logged))].
Proof.
  apply (outputToTarget_by_mask Sys_logged); reflexivity.
Defined.

(** C3 as stated fails: with both bits set and a path whose directory
    does not exist, the dispatcher writes the buffer to the console and
    appends it to no file. *)
Lemma outputToTarget_by_mask_counterexample :
  file_bit (m_LogTarget (statics Sys_sample_no_dir)) = true ∧
  emitted outputToTarget Sys_sample_no_dir
  = [ConsoleWrite (m_wstrLogBuffer (statics Sys_sample_no_dir))] ∧
  files (world (exec outputToTarget Sys_sample_no_dir)) = ∅.
Proof. by vm_compute. Qed.

(** ** What a call of [writeLog] emits *)

Lemma emitted_unchanged_world {A} (m : M A) s :
  world (exec m s) = world s → emitted m s = [].
Proof. intros H. apply emitted_app. by rewrite H, app_nil_r. Qed.

(** C4. A call whose level is numerically greater than the threshold
    returns at once: it returns normally, the buffer is the one before
    the call, nothing is added to the trace, so that no output is
    produced, and the whole state (registry, instance, once-flag,
    console, files, open streams, locale) is the one before the
    call. *)
Theorem writeLog_filtered_noop env lvl file function line fmt args s :
  LOGLEVEL_val lvl > LOGLEVEL_val (m_LogLevel (statics s)) →
  let call := writeLog env lvl file function line fmt args in
  result call s = Return () ∧
  m_wstrLogBuffer (statics (exec call s)) = m_wstrLogBuffer (statics s) ∧
  emitted call s = [] ∧
  exec call s = s.
Proof.
  intros Hgt call. subst call.
  assert (Hs : exec (writeLog env lvl file function line fmt args) s = s).
  { unfold exec. by rewrite writeLog_filtered. }
  split; [unfold result; by rewrite writeLog_filtered |].
  split; [by rewrite Hs |]. split; [| done].
  apply emitted_unchanged_world. by rewrite Hs.
Qed.

Lemma writeLog_filtered_noop_witness :
  exec (writeLog env_sample LOG_LEVEL_DEBUG (L "log.cpp") (L "main") 12 (L "hello %d")
          [AInt 5]) Sys_sample_warning
  = Sys_sample_warning.
Proof.
  apply (writeLog_filtered_noop env_sample LOG_LEVEL_DEBUG (L "log.cpp") (L "main") 12
           (L "hello %d") [AInt 5] Sys_sample_warning).
  vm_compute. reflexivity.
Defined.

Lemma emitted_writeLog_passes env lvl file function line fmt args s name message :
  LOGLEVEL_val lvl ≤ LOGLEVEL_val (m_LogLevel (statics s)) →
  LOGLEVEL_WSTRING_find lvl = Some name →
  fits env fmt →
  vswprintf 256 (MultiByteToWideChar env fmt) args = Some message →
  emitted (writeLog env lvl file function line fmt args) s
  = (if console_bit (m_LogTarget (statics s))
     then [ConsoleWrite (block env name file function line message)] else []) ++
    (if file_bit (m_LogTarget (statics s)) && can_append (m_wstrLogFile (statics s)) (world s)
     then [FileAppend (m_wstrLogFile (statics s)) (block env name file function line message)]
     else []).
Proof.
  intros Hle Hname Hfits Hmsg. apply emitted_app. unfold exec.
  rewrite (writeLog_passes _ _ _ _ _ _ _ _ _ _ Hle Hname Hfits Hmsg), outputToTarget_run.
  cbn. by rewrite trace_dispatched.
Qed.

Lemma LOGLEVEL_val_nonneg lvl : 0 ≤ LOGLEVEL_val lvl.
Proof. by destruct lvl. Qed.





(** ** The composed block *)




(** ** The file scenario *)

(** C5. Target FILE, path "./t.log", a threshold that lets INFO
    through, an ANSI code page that leaves the format as it is: one
    INFO call with format "hello %d" and argument 5. The call converts
    the format, 8 characters and the NUL, into [Format], which has
    [sizeof _Format] elements, the size of a pointer, and the time
    stamp, 19 characters and the NUL, into [wTimeBuffer], which has
    19. Where one of the two does not stay within the room of its
    array, as is the case when nothing can be written past the end of
    an array (the reading of the C++ standard) and whenever [Format]
    has room for at most 8 wide characters, the call ends in the
    overrun, before the dispatch: up to there nothing is written and
    the file is the one before the call; what follows is undefined,
    and the block of the scenario is not there. Only where both
    conversions stay within the room of their arrays and the file
    can be opened, and with no earlier content in the file, the call
    returns normally, performs one write, the append to "./t.log",
    leaves the console as it was, and the file then holds exactly one
    block, whose body between the metadata and the newline before the
    closing banner is "hello 5". *)
Theorem writeLog_hello_to_file env file function line s :
  MultiByteToWideChar env (L "hello %d") = L "hello %d" →
  m_LogTarget (statics s) = LOG_TARGET_FILE →
  m_wstrLogFile (statics s) = L "./t.log" →
  LOGLEVEL_val LOG_LEVEL_INFO ≤ LOGLEVEL_val (m_LogLevel (statics s)) →
  let call := writeLog env LOG_LEVEL_INFO file function line (L "hello %d") [AInt 5] in
  let framed :=
    [NL] ++ banner (L "INFO") ++ [NL] ++
    timestamp env ++ take 99 (metadata (getpid env) (gettid env) file function line) ++
    L "hello 5" ++ [NL] ++
    banner (L "INFO") ++ [NL] in
  ((array_room env (sizeof_pointer env) ≤ 8)%nat → ¬ fits env (L "hello %d")) ∧
  (¬ fits env (L "hello %d") →
   result call s = Throw array_overrun ∧
   emitted call s = [] ∧
   world (exec call s) = world s) ∧
  (fits env (L "hello %d") →
   can_append (L "./t.log") (world s) = true →
   default [] (files (world s) !! L "./t.log") = [] →
   result call s = Return () ∧
   files (world (exec call s)) !! L "./t.log" = Some framed ∧
   emitted call s = [FileAppend (L "./t.log") framed] ∧
   console (world (exec call s)) = console (world s)).
Proof.
  intros Hcp Htgt Hpath Hle call framed.
  assert (Hname : LOGLEVEL_WSTRING_find LOG_LEVEL_INFO = Some (L "INFO")) by by vm_compute.
  split; [| split].
  - intros Hroom [_ Hf]. unfold format_fits in Hf. rewrite Hcp in Hf. cbn in Hf. lia.
  - intros Hno.
    destruct (writeLog_overrun env LOG_LEVEL_INFO file function line (L "hello %d")
                [AInt 5] s _ Hle Hname Hno) as [b Hrun].
    subst call. unfold result. rewrite Hrun.
    assert (Hw : world (exec (writeLog env LOG_LEVEL_INFO file function line (L "hello %d")
                                [AInt 5]) s) = world s).
    { unfold exec. by rewrite Hrun. }
    split; [done |]. split; [by apply emitted_unchanged_world | done].
  - intros Hfits Hopen Hfresh.
    assert (Hmsg : vswprintf 256 (MultiByteToWideChar env (L "hello %d")) [AInt 5]
                   = Some (L "hello 5")).
    { rewrite Hcp. by vm_compute. }
    pose proof (writeLog_passes env LOG_LEVEL_INFO file function line (L "hello %d")
                  [AInt 5] s _ _ Hle Hname Hfits Hmsg) as Hrun.
    rewrite outputToTarget_run in Hrun.
    cbn [statics world with_buffer set_m_wstrLogBuffer m_LogTarget m_wstrLogFile
         m_wstrLogBuffer] in Hrun.
    rewrite Htgt, Hpath in Hrun.
    split; [| split; [| split]].
    + subst call. unfold result. by rewrite Hrun.
    + subst call. unfold exec. rewrite Hrun. cbn [snd world].
      rewrite files_dispatched, Hopen.
      change (file_bit LOG_TARGET_FILE) with true. cbv iota. cbn [andb].
      rewrite lookup_insert_eq, Hfresh. done.
    + subst call.
      rewrite (emitted_writeLog_passes _ _ _ _ _ _ _ _ _ _ Hle Hname Hfits Hmsg).
      rewrite Htgt, Hpath, Hopen. done.
    + subst call. unfold exec. rewrite Hrun. cbn [snd world].
      rewrite console_dispatched. cbn. by rewrite app_nil_r.
Qed.

(** The scenario on [env_strict]: the format overruns [Format], and
    nothing reaches the file. *)
Lemma writeLog_hello_to_file_witness :
  result (writeLog env_strict LOG_LEVEL_INFO (L "log.cpp") (L "main") 12 (L "hello %d")
            [AInt 5]) Sys_sample_file = Throw array_overrun ∧
  emitted (writeLog env_strict LOG_LEVEL_INFO (L "log.cpp") (L "main") 12 (L "hello %d")
             [AInt 5]) Sys_sample_file = [] ∧
  world (exec (writeLog env_strict LOG_LEVEL_INFO (L "log.cpp") (L "main") 12 (L "hello %d")
                 [AInt 5]) Sys_sample_file) = world Sys_sample_file.
Proof.
  refine (proj1 (proj2
            (writeLog_hello_to_file env_strict (L "log.cpp") (L "main") 12 Sys_sample_file
               _ _ _ _)) _).
  - reflexivity.
  - reflexivity.
  - reflexivity.
  - vm_compute. discriminate.
  - intros [Ht _]. apply Nat.leb_le in Ht. vm_compute in Ht. discriminate.
Defined.

(** ** Reading back *)

Lemma words_skip_ws s : words (skip_ws s) = words s.
Proof.
  unfold words. induction s as [|c s IH]; [done |].
  cbn. destruct (isspace c) eqn:Hc; [by rewrite IH | cbn; by rewrite Hc].
Qed.

Lemma skip_ws_nil s : skip_ws s = [] → words s = [] ∧ ends_blank s = true.
Proof.
  unfold words, ends_blank. induction s as [|c s IH]; [done |].
  cbn [skip_ws words_from]. destruct (isspace c) eqn:Hc; [| done].
  intros Hs. destruct (IH Hs) as [Hw Hb]. split; [by rewrite Hw |].
  destruct s as [|c' s]; [by cbn; rewrite Hc | done].
Qed.

Lemma skip_ws_cons s c r :
  skip_ws s = c :: r → isspace c = false ∧ ends_blank s = ends_blank (c :: r).
Proof.
  unfold ends_blank. induction s as [|c0 s IH]; [done |].
  cbn [skip_ws]. destruct (isspace c0) eqn:Hc.
  - intros Hs. destruct (IH Hs) as [Hsp Hb]. split; [done |].
    destruct s as [|c' s]; [done |]. exact Hb.
  - intros [= -> ->]. done.
Qed.

Lemma length_skip_ws s : (length (skip_ws s) ≤ length s)%nat.
Proof.
  induction s as [|c s IH]; [done |]. cbn. destruct (isspace c); cbn; lia.
Qed.

Lemma words_from_read_word cur s :
  words_from cur s = words_from (cur ++ (read_word s).1) (read_word s).2.
Proof.
  revert cur. induction s as [|c s IH]; intros cur.
  - cbn. by rewrite app_nil_r.
  - cbn. destruct (isspace c) eqn:Hc.
    + cbn. rewrite app_nil_r, Hc. done.
    + rewrite IH. destruct (read_word s) as [w r]. cbn. by rewrite <- app_assoc.
Qed.

Lemma read_word_rest s :
  (read_word s).2 = [] ∨ ∃ c r, (read_word s).2 = c :: r ∧ isspace c = true.
Proof.
  induction s as [|c s IH]; [by left |].
  cbn. destruct (isspace c) eqn:Hc; [right; eauto |].
  by destruct (read_word s) as [w r].
Qed.

Lemma read_word_app s : s = (read_word s).1 ++ (read_word s).2.
Proof.
  induction s as [|c s IH]; [done |].
  cbn. destruct (isspace c); [done |].
  destruct (read_word s) as [w r]. cbn in *. by rewrite <- IH.
Qed.

Lemma read_word_not_blank s :
  (read_word s).2 = [] → s ≠ [] → ends_blank s = false.
Proof.
  unfold ends_blank. induction s as [|c s IH]; [done |].
  cbn. destruct (isspace c) eqn:Hc; [done |].
  destruct (read_word s) as [w r] eqn:Hw. cbn in *. intros -> _.
  destruct s as [|c' s]; [by cbn; rewrite Hc |].
  by apply IH.
Qed.

Lemma ends_blank_app s r : r ≠ [] → ends_blank (s ++ r) = ends_blank r.
Proof.
  intros Hr. unfold ends_blank. rewrite last_app.
  destruct (last r) eqn:Hl; [done |]. by apply last_None in Hl.
Qed.

(** The loop ends within one iteration more than the file has
    characters, and appends the words of the file, followed by one empty
    string when the file is empty or ends in white space. *)
Lemma read_loop_words fuel s _LogTable :
  (length s < fuel)%nat →
  read_loop fuel {| pending := s; eofbit := false; failbit := false |} _LogTable
  = Some (_LogTable ++ words s ++ (if ends_blank s then [[]] else [])).
Proof.
  revert s _LogTable. induction fuel as [|fuel IH]; intros s tbl Hlen; [lia |].
  cbn [read_loop good eofbit failbit negb andb]. unfold extract. cbn [pending].
  destruct (skip_ws s) as [|c r] eqn:Hs.
  - destruct (skip_ws_nil _ Hs) as [-> ->]. by destruct fuel.
  - destruct (skip_ws_cons _ _ _ Hs) as [Hc Hb].
    rewrite <- (words_skip_ws s), Hs, Hb. unfold words.
    rewrite (words_from_read_word [] (c :: r)).
    assert (Hlen' : (length (read_word (c :: r)).2 < fuel)%nat).
    { pose proof (length_skip_ws s) as H1. rewrite Hs in H1.
      pose proof (f_equal length (read_word_app (c :: r))) as H2.
      rewrite length_app in H2. cbn [read_word] in *. rewrite Hc in *.
      destruct (read_word r) as [w0 r0]. cbn in *. lia. }
    assert (Hw : (read_word (c :: r)).1 ≠ []).
    { cbn. rewrite Hc. by destruct (read_word r). }
    pose proof (read_word_app (c :: r)) as Happ.
    destruct (read_word_rest (c :: r)) as [Hr | (c' & r' & Hr & Hc')].
    + rewrite (read_word_not_blank _ Hr) by done.
      destruct (read_word (c :: r)) as [w rest]. cbn [fst snd] in *. subst rest.
      cbn. rewrite bool_decide_eq_false_2 by done.
      by destruct fuel.
    + destruct (read_word (c :: r)) as [w rest]. cbn [fst snd] in *. subst rest.
      replace (ends_blank (c :: r)) with (ends_blank (c' :: r'))
        by (rewrite Happ; symmetry; by apply ends_blank_app).
      rewrite bool_decide_eq_false_2 by done.
      rewrite IH by done. f_equal. unfold words. cbn [words_from app]. rewrite Hc'.
      rewrite (bool_decide_eq_false_2 (w = [])) by done.
      cbn. by rewrite <- !app_assoc.
Qed.

Lemma getLogFromFile_absent _LogTable s :
  files (world s) !! m_wstrLogFile (statics s) = None →
  getLogFromFile _LogTable s = (Return (false, _LogTable), s).
Proof.
  intros Hf. unfold getLogFromFile.
  rewrite (bind_Return _ _ s (m_wstrLogFile (statics s)) s) by done.
  rewrite (bind_Return _ _ s None s); [done |].
  unfold wifstream_open. by rewrite Hf.
Qed.

Lemma getLogFromFile_present _LogTable s content :
  files (world s) !! m_wstrLogFile (statics s) = Some content →
  getLogFromFile _LogTable s
  = (Return (true, _LogTable ++ words content ++ (if ends_blank content then [[]] else [])),
     s).
Proof.
  intros Hf. unfold getLogFromFile.
  rewrite (bind_Return _ _ s (m_wstrLogFile (statics s)) s) by done.
  rewrite (bind_Return _ _ s
             (Some {| pending := content; eofbit := false; failbit := false |})
             {| statics := statics s;
                world := set_open_files (S (open_files (world s))) (world s) |}).
  2: { unfold wifstream_open. by rewrite Hf. }
  cbn [pending]. rewrite read_loop_words by lia.
  destruct s as [g [c fs n l h tr na]]. reflexivity.
Qed.

Lemma words_from_sound cur s :
  Forall (λ c, isspace c = false) cur →
  Forall (λ w, w ≠ [] ∧ Forall (λ c, isspace c = false) w) (words_from cur s).
Proof.
  revert cur. induction s as [|c s IH]; intros cur Hcur; cbn.
  - case_bool_decide; [constructor |]. by repeat constructor.
  - destruct (isspace c) eqn:Hc.
    + apply Forall_app. split; [| by apply IH].
      case_bool_decide; [constructor |]. by repeat constructor.
    + apply IH. apply Forall_app. split; [done |]. by repeat constructor.
Qed.

(** C6. When the configured file cannot be opened the call returns
    false and nothing changes. When the file exists with content
    [content], the call returns true; the vector then holds its former
    elements followed by the white-space separated words of [content]
    in their order (each non-empty and free of white space), followed
    by one empty string when [content] is empty or ends in white space;
    the loop ends, and the state, the count of open streams included,
    is the one before the call. *)
Theorem getLogFromFile_tokens _LogTable s :
  (files (world s) !! m_wstrLogFile (statics s) = None →
   getLogFromFile _LogTable s = (Return (false, _LogTable), s)) ∧
  (∀ content,
     files (world s) !! m_wstrLogFile (statics s) = Some content →
     getLogFromFile _LogTable s
     = (Return (true,
                _LogTable ++ words content ++ (if ends_blank content then [[]] else [])), s) ∧
     read_loop (S (length content))
       {| pending := content; eofbit := false; failbit := false |} _LogTable
     = Some (_LogTable ++ words content ++ (if ends_blank content then [[]] else [])) ∧
     Forall (λ w, w ≠ [] ∧ Forall (λ c, isspace c = false) w) (words content)).
Proof.
  split; [apply getLogFromFile_absent |].
  intros content Hf. split; [by apply getLogFromFile_present |].
  split; [apply read_loop_words; lia |].
  by apply words_from_sound.
Qed.

Lemma getLogFromFile_tokens_witness :
  getLogFromFile [L "old"] Sys_logged
  = (Return (true,
             [L "old"] ++ words (block_of (call_sample LOG_LEVEL_INFO 7 5)) ++
             (if ends_blank (block_of (call_sample LOG_LEVEL_INFO 7 5)) then [[]] else [])),
     Sys_logged).
Proof.
  apply (proj2 (getLogFromFile_tokens [L "old"] Sys_logged)
           (block_of (call_sample LOG_LEVEL_INFO 7 5))).
  vm_compute. reflexivity.
Defined.

Lemma block_ends_NL env name file function line message :
  ∃ pre, block env name file function line message = pre ++ [NL].
Proof.
  exists ([NL] ++ banner name ++ [NL] ++ timestamp env ++
          take 99 (metadata (getpid env) (gettid env) file function line) ++
          message ++ [NL] ++ banner name).
  unfold block. by rewrite <- !app_assoc.
Qed.

Lemma ends_blank_snoc_NL s : ends_blank (s ++ [NL]) = true.
Proof. unfold ends_blank. by rewrite last_snoc. Qed.

(** C10. When the file can be opened, the former elements of the
    vector are kept and what is read is put after them; when the
    content ends in a white-space character, the last element put
    there is an empty string. This is the case after every call of
    [writeLog] that has appended to the configured file: a read that
    follows it returns a vector whose last element is empty. *)
Theorem getLogFromFile_trailing_empty _LogTable s :
  (∀ content,
     files (world s) !! m_wstrLogFile (statics s) = Some content →
     ∃ read, result (getLogFromFile _LogTable) s = Return (true, _LogTable ++ read) ∧
             (∀ c, last content = Some c → isspace c = true →
                   read = words content ++ [[]])) ∧
  (∀ env lvl file function line fmt args buf,
     FileAppend (m_wstrLogFile (statics s)) buf
       ∈ emitted (writeLog env lvl file function line fmt args) s →
     ∃ read,
       result (writeLog env lvl file function line fmt args;; getLogFromFile _LogTable) s
       = Return (true, _LogTable ++ read ++ [[]])).
Proof.
  split.
  - intros content Hf.
    exists (words content ++ (if ends_blank content then [[]] else [])).
    unfold result. rewrite (getLogFromFile_present _ _ _ Hf). split; [done |].
    intros c Hl Hc. unfold ends_blank. by rewrite Hl, Hc.
  - intros env lvl file function line fmt args buf Hin.
    destruct (writeLog_cases env lvl file function line fmt args s)
      as [[_ Hrun] | [(_ & e & b & Hrun) |
                      (Hle & name & message & Hname & Hfits & Hmsg & Hrun)]].
    + rewrite emitted_unchanged_world in Hin by (unfold exec; by rewrite Hrun).
      by apply elem_of_nil in Hin.
    + rewrite emitted_unchanged_world in Hin by (unfold exec; by rewrite Hrun).
      by apply elem_of_nil in Hin.
    + rewrite (emitted_writeLog_passes _ _ _ _ _ _ _ _ _ _ Hle Hname Hfits Hmsg) in Hin.
      destruct (file_bit (m_LogTarget (statics s)) &&
                can_append (m_wstrLogFile (statics s)) (world s)) eqn:Hto.
      2: { destruct (console_bit _); cbn in Hin;
             rewrite ?elem_of_cons, ?elem_of_nil in Hin; [| done].
           by destruct Hin as [[=] | []]. }
      rewrite outputToTarget_run in Hrun.
      destruct (block_ends_NL env name file function line message) as [pre Hpre].
      eexists. unfold result. erewrite bind_Return by exact Hrun.
      erewrite getLogFromFile_present.
      2: { cbn [statics world with_buffer set_m_wstrLogBuffer m_wstrLogFile m_LogTarget
                m_wstrLogBuffer].
           rewrite files_dispatched, Hto. apply lookup_insert_eq. }
      rewrite Hpre, (app_assoc _ pre [NL]), ends_blank_snoc_NL. done.
Qed.

Lemma getLogFromFile_trailing_empty_witness :
  ∃ read,
    result (writeLog env_sample LOG_LEVEL_INFO (L "log.cpp") (L "main") 12 (L "hello %d")
              [AInt 5];; getLogFromFile [L "old"]) Sys_sample_file
    = Return (true, [L "old"] ++ read ++ [[]]).
Proof.
  apply (proj2 (getLogFromFile_trailing_empty [L "old"] Sys_sample_file)
           env_sample LOG_LEVEL_INFO (L "log.cpp") (L "main") 12 (L "hello %d") [AInt 5]
           (block env_sample (L "INFO") (L "log.cpp") (L "main") 12 (L "hello 5"))).
  vm_compute. apply list_elem_of_here.
Defined.

(** ** Initialisation *)

Lemma Init_run l t p s : Init l t p s = (Return (), initialised l t p s).
Proof.
  destruct s as [[o b f l0 t0 r] [c fs n lc h tr]]. by destruct o.
Qed.

Lemma Instance_first s :
  m_ResourceFlag (statics s) = false →
  Instance s
  = (Return (Some (default (heap_next (world s)) (m_Log (statics s)))),
     {| statics :=
          set_m_ResourceFlag true
            (statics (initialised (m_LogLevel (statics s)) (m_LogTarget (statics s))
                        (m_wstrLogFile (statics s)) s));
        world :=
          world (initialised (m_LogLevel (statics s)) (m_LogTarget (statics s))
                   (m_wstrLogFile (statics s)) s) |}).
Proof.
  intros Hflag. unfold Instance, call_once.
  rewrite (bind_Return _ _ s (m_LogLevel (statics s)) s) by done.
  rewrite (bind_Return _ _ s (m_LogTarget (statics s)) s) by done.
  rewrite (bind_Return _ _ s (m_wstrLogFile (statics s)) s) by done.
  rewrite bind_assoc.
  rewrite (bind_Return _ _ s (m_ResourceFlag (statics s)) s) by done.
  rewrite Hflag, bind_assoc.
  rewrite (bind_Return _ _ _ _ _ (Init_run _ _ _ s)).
  reflexivity.
Qed.

Lemma Instance_again s :
  m_ResourceFlag (statics s) = true →
  Instance s = (Return (m_Log (statics s)), s).
Proof.
  intros Hflag. unfold Instance, call_once.
  rewrite (bind_Return _ _ s (m_LogLevel (statics s)) s) by done.
  rewrite (bind_Return _ _ s (m_LogTarget (statics s)) s) by done.
  rewrite (bind_Return _ _ s (m_wstrLogFile (statics s)) s) by done.
  rewrite bind_assoc.
  rewrite (bind_Return _ _ s (m_ResourceFlag (statics s)) s) by done.
  by rewrite Hflag.
Qed.

Lemma Instance_times_again n s p :
  m_ResourceFlag (statics s) = true →
  m_Log (statics s) = p →
  Instance_times n s = (Return (replicate n p), s).
Proof.
  intros Hflag Hp. induction n as [|n IH]; [done |].
  cbn [Instance_times].
  rewrite (bind_Return _ _ _ _ _ (Instance_again s Hflag)).
  rewrite (bind_Return _ _ _ _ _ IH). by rewrite Hp.
Qed.

(** C8. From a state whose once-flag is not yet consumed, any number
    [S n] of calls of [Instance] in a row return one and the same
    instance; they reach the state that the first call alone reaches;
    the body of [Init] runs exactly once during them; at most one
    object is allocated; level, target and path are those before the
    calls; one more call returns the same instance and changes
    nothing; and in whatever state the once-flag is found consumed, a
    call returns the instance pointer as it is and changes nothing. *)
Theorem Instance_idempotent n s :
  m_ResourceFlag (statics s) = false →
  ∃ p,
    result (Instance_times (S n)) s = Return (replicate (S n) (Some p)) ∧
    exec (Instance_times (S n)) s = exec Instance s ∧
    length (filter is_InitRun (emitted (Instance_times (S n)) s)) = 1%nat ∧
    (heap_next (world (exec (Instance_times (S n)) s)) ≤ S (heap_next (world s)))%nat ∧
    configuration (exec Instance s) = configuration s ∧
    Instance (exec Instance s) = (Return (Some p), exec Instance s) ∧
    (∀ s', m_ResourceFlag (statics s') = true →
           Instance s' = (Return (m_Log (statics s')), s')).
Proof.
  intros Hflag. exists (default (heap_next (world s)) (m_Log (statics s))).
  pose proof (Instance_first s Hflag) as H1.
  set (s1 := {| statics := _; world := _ |}) in H1.
  assert (Hf1 : m_ResourceFlag (statics s1) = true) by done.
  assert (Hp1 : m_Log (statics s1) = Some (default (heap_next (world s)) (m_Log (statics s))))
    by done.
  assert (Hrun : Instance_times (S n) s
                 = (Return (replicate (S n)
                              (Some (default (heap_next (world s)) (m_Log (statics s))))),
                    s1)).
  { cbn [Instance_times]. rewrite (bind_Return _ _ _ _ _ H1).
    by rewrite (bind_Return _ _ _ _ _ (Instance_times_again n s1 _ Hf1 Hp1)). }
  unfold result, exec. rewrite Hrun, H1. cbn [fst snd].
  repeat split.
  - rewrite (emitted_app _ _ [InitRun (m_LogLevel (statics s)) (m_LogTarget (statics s))
                                (m_wstrLogFile (statics s))]); [done |].
    unfold exec. by rewrite Hrun.
  - subst s1. cbn. destruct (m_Log (statics s)); lia.
  - apply Instance_again.
Qed.

Lemma Instance_idempotent_witness :
  ∃ p,
    result (Instance_times 3) Sys_initial = Return (replicate 3 (Some p)) ∧
    exec (Instance_times 3) Sys_initial = exec Instance Sys_initial ∧
    length (filter is_InitRun (emitted (Instance_times 3) Sys_initial)) = 1%nat ∧
    (heap_next (world (exec (Instance_times 3) Sys_initial))
     ≤ S (heap_next (world Sys_initial)))%nat ∧
    configuration (exec Instance Sys_initial) = configuration Sys_initial ∧
    Instance (exec Instance Sys_initial) = (Return (Some p), exec Instance Sys_initial) ∧
    (∀ s', m_ResourceFlag (statics s') = true →
           Instance s' = (Return (m_Log (statics s')), s')).
Proof.
  apply (Instance_idempotent 2 Sys_initial). reflexivity.
Defined.

(** [writeLog] leaves everything but the buffer, the console and the
    files alone, and adds only writes to the trace. *)
Lemma writeLog_frame env lvl file function line fmt args s :
  ∃ b evs,
    statics (exec (writeLog env lvl file function line fmt args) s)
      = set_m_wstrLogBuffer b (statics s) ∧
    trace (world (exec (writeLog env lvl file function line fmt args) s))
      = trace (world s) ++ evs ∧
    Forall (λ e, is_output e = true) evs.
Proof.
  unfold exec.
  destruct (writeLog_cases env lvl file function line fmt args s)
    as [[_ ->] | [(_ & e & b & ->) | (_ & name & message & _ & _ & _ & ->)]].
  - exists (m_wstrLogBuffer (statics s)), []. rewrite app_nil_r.
    by destruct s as [[]].
  - eexists _, []. by rewrite app_nil_r.
  - rewrite outputToTarget_run.
    eexists _, _. cbn [snd statics world]. rewrite trace_dispatched.
    split; [done |]. split; [done |].
    destruct (console_bit _), (file_bit _), (can_append _ _); by repeat constructor.
Qed.

Lemma filter_InitRun_outputs evs :
  Forall (λ e, is_output e = true) evs → filter is_InitRun evs = [].
Proof.
  induction 1 as [|e evs He _ IH]; [done |].
  rewrite filter_cons_False by (unfold is_InitRun; rewrite He; cbn; tauto).
  exact IH.
Qed.

(** C9. In a state with the static defaults for level, target and path
    and an unconsumed once-flag, the first call of [Instance] runs
    [Init] once, with the arguments NONE, NONE and "./Log.txt", and
    leaves exactly these three in the registry; no target bit is set,
    so that a dispatch changes nothing. [writeLog] never runs [Init]:
    whatever its arguments and the state, it leaves the once-flag and
    the instance pointer as they are and adds no run of [Init] to the
    trace. *)
Theorem lazy_initialisation_defaults s :
  (configuration s = configuration Sys_initial →
   m_ResourceFlag (statics s) = false →
   let s' := exec Instance s in
   filter is_InitRun (emitted Instance s)
     = [InitRun LOG_LEVEL_NONE LOG_TARGET_NONE (L "./Log.txt")] ∧
   configuration s' = (LOG_LEVEL_NONE, LOG_TARGET_NONE, L "./Log.txt") ∧
   console_bit (m_LogTarget (statics s')) = false ∧
   file_bit (m_LogTarget (statics s')) = false ∧
   outputToTarget s' = (Return (), s')) ∧
  (∀ env lvl file function line fmt args,
     let s' := exec (writeLog env lvl file function line fmt args) s in
     m_ResourceFlag (statics s') = m_ResourceFlag (statics s) ∧
     m_Log (statics s') = m_Log (statics s) ∧
     filter is_InitRun (emitted (writeLog env lvl file function line fmt args) s) = []).
Proof.
  split.
  - intros Hcfg Hflag s'. injection Hcfg as Hl Ht Hp.
    pose proof (Instance_first s Hflag) as H1. rewrite Hl, Ht, Hp in H1.
    subst s'. unfold exec. rewrite H1. cbn [snd].
    split; [| split; [done | split; [done | split; [done |]]]].
    + erewrite emitted_app; [| unfold exec; by rewrite H1]. done.
    + rewrite outputToTarget_run. cbn. done.
  - intros env lvl file function line fmt args s'. subst s'.
    destruct (writeLog_frame env lvl file function line fmt args s)
      as (b & evs & -> & Htr & Hev).
    split; [done |]. split; [done |].
    rewrite (emitted_app _ _ _ Htr). by apply filter_InitRun_outputs.
Qed.

Lemma lazy_initialisation_defaults_witness :
  configuration (exec Instance Sys_initial)
  = (LOG_LEVEL_NONE, LOG_TARGET_NONE, L "./Log.txt").
Proof.
  apply (proj1 (lazy_initialisation_defaults Sys_initial)); reflexivity.
Defined.


(** ** Threads: counting and bookkeeping *)

Section pool.
Context (P : thread → bool).

Lemma count_cons th pool :
  count P (th :: pool) = (Nat.b2n (P th) + count P pool)%nat.
Proof. reflexivity. Qed.

Lemma count_insert pool i th th' :
  pool !! i = Some th →
  (count P (<[i := th']> pool) + Nat.b2n (P th)
   = count P pool + Nat.b2n (P th'))%nat.
Proof.
  revert i. induction pool as [|x pool IH]; intros [|i] Hi; try done.
  - injection Hi as ->. change (<[0%nat := th']> (th :: pool)) with (th' :: pool).
    rewrite !count_cons. clear IH. lia.
  - change (<[S i := th']> (x :: pool)) with (x :: <[i := th']> pool).
    rewrite !count_cons. specialize (IH i Hi). lia.
Qed.

Lemma count_pos pool i th :
  pool !! i = Some th → P th = true → (1 ≤ count P pool)%nat.
Proof.
  revert i. induction pool as [|x pool IH]; intros [|i] Hi Hp; try done.
  - injection Hi as ->. rewrite count_cons, Hp. cbn. lia.
  - rewrite count_cons. specialize (IH i Hi Hp). lia.
Qed.

Lemma count_zero pool i th :
  count P pool = 0%nat → pool !! i = Some th → P th = false.
Proof.
  intros H0 Hi. destruct (P th) eqn:Hp; [| done].
  pose proof (count_pos _ _ _ Hi Hp). lia.
Qed.

Lemma count_one pool i j th th' :
  count P pool = 1%nat → pool !! i = Some th → P th = true →
  pool !! j = Some th' → i ≠ j → P th' = false.
Proof.
  revert i j. induction pool as [|x pool IH]; intros [|i] [|j] H1 Hi Hp Hj Hne;
    try done; rewrite count_cons in H1.
  - injection Hi as ->. rewrite Hp in H1. cbn in H1. clear IH.
    apply (count_zero pool j); [lia | done].
  - injection Hj as ->. pose proof (count_pos pool i th Hi Hp). clear IH.
    destruct (P th'); [cbn in H1; lia | done].
  - eapply (IH i j); try done; [| congruence].
    pose proof (count_pos pool i th Hi Hp). clear IH. destruct (P x); cbn in H1; lia.
Qed.


End pool.

Lemma count_le (P Q : thread → bool) pool :
  (∀ th, P th = true → Q th = true) → (count P pool ≤ count Q pool)%nat.
Proof.
  intros HPQ. induction pool as [|x pool IH]; [done |].
  rewrite !count_cons. specialize (HPQ x).
  destruct (P x), (Q x); cbn; lia.
Qed.

Lemma omap_cons_thread {A} (f : thread → option A) x (pool : list thread) :
  omap f (x :: pool)
  = match f x with Some a => a :: omap f pool | None => omap f pool end.
Proof. reflexivity. Qed.

Lemma omap_insert_same {A} (f : thread → option A) (pool : list thread) i th th' :
  pool !! i = Some th → f th' = f th → omap f (<[i := th']> pool) = omap f pool.
Proof.
  revert i. induction pool as [|x pool IH]; intros [|i] Hi Hf; try done.
  - injection Hi as ->. change (<[0%nat := th']> (th :: pool)) with (th' :: pool).
    by rewrite !omap_cons_thread, Hf.
  - change (<[S i := th']> (x :: pool)) with (x :: <[i := th']> pool).
    by rewrite !omap_cons_thread, (IH i Hi Hf).
Qed.

Lemma omap_insert_new {A} (f : thread → option A) (pool : list thread) i th th' a :
  pool !! i = Some th → f th = None → f th' = Some a →
  omap f (<[i := th']> pool) ≡ₚ omap f pool ++ [a].
Proof.
  revert i. induction pool as [|x pool IH]; intros [|i] Hi Hn Hs; try done.
  - injection Hi as ->. change (<[0%nat := th']> (th :: pool)) with (th' :: pool).
    rewrite !omap_cons_thread, Hn, Hs. apply (Permutation_app_comm [a]).
  - change (<[S i := th']> (x :: pool)) with (x :: <[i := th']> pool).
    rewrite !omap_cons_thread. destruct (f x); cbn; by rewrite (IH i Hi Hn Hs).
Qed.

(** ** A writer on its own is [writeLog] *)

Lemma bind_ext {A B} (m : M A) (k1 k2 : A → M B) s :
  (∀ a s', k1 a s' = k2 a s') → (m ≫= k1) s = (m ≫= k2) s.
Proof. intros H. unfold mbind, M_bind. destruct (m s) as [[a|e] s']; [apply H | done]. Qed.

Lemma bind_skip (m : M unit) s : (m;; skip) s = m s.
Proof. unfold mbind, M_bind. by destruct (m s) as [[[]|e] s']. Qed.

Lemma writeLog_as_statements c s :
  writeLog_call c s
  = (threshold ← gets m_LogLevel;
     if bool_decide (LOGLEVEL_val (c_level c) > LOGLEVEL_val threshold) then skip
     else run_statements (writeLog_statements c)) s.
Proof.
  unfold writeLog_call, writeLog. apply bind_ext. intros threshold s1.
  destruct (bool_decide _); [done |].
  unfold writeLog_statements, run_statements.
  rewrite bind_assoc.
  repeat (apply bind_ext; intros; rewrite ?bind_assoc).
  by rewrite bind_skip.
Qed.

Lemma exec_statements_cons a rest s :
  exec (run_statements (a :: rest)) s
  = match a s with
    | (Return _, s') => exec (run_statements rest) s'
    | (Throw _, s') => s'
    end.
Proof.
  unfold exec. cbn [run_statements]. unfold mbind, M_bind.
  by destruct (a s) as [[[]|e] s'].
Qed.

Lemma exec_writeLog_filtered c s :
  LOGLEVEL_val (c_level c) > LOGLEVEL_val (m_LogLevel (statics s)) →
  exec (writeLog_call c) s = s.
Proof. intros H. unfold exec, writeLog_call. by rewrite writeLog_filtered. Qed.

Lemma exec_writeLog_statements c s :
  ¬ LOGLEVEL_val (c_level c) > LOGLEVEL_val (m_LogLevel (statics s)) →
  exec (writeLog_call c) s = exec (run_statements (writeLog_statements c)) s.
Proof.
  intros H. unfold exec. rewrite writeLog_as_statements.
  rewrite (bind_Return _ _ s (m_LogLevel (statics s)) s) by done.
  by rewrite bool_decide_eq_false_2.
Qed.

Lemma serial_snoc hist c s0 :
  serial (hist ++ [c]) s0 = exec (writeLog_call c) (serial hist s0).
Proof. unfold serial. by rewrite foldl_app. Qed.

Lemma more_streams_0 s : more_streams 0 s = s.
Proof. by destruct s as [g []]. Qed.

(** ** The mutex and the threads *)

Lemma step_inv cfg cfg' :
  step cfg cfg' →
  ∃ i th m' s' th',
    threads cfg !! i = Some th ∧
    thread_step (mutex cfg) (shared cfg) th = Some (m', s', th') ∧
    cfg' = {| mutex := m'; shared := s'; threads := <[i := th']> (threads cfg) |}.
Proof.
  intros [i Hi]. unfold step_thread in Hi.
  destruct (threads cfg !! i) as [th|] eqn:Hth; [| done]. cbn in Hi.
  destruct (thread_step _ _ th) as [[[m' s'] th']|] eqn:Hst; [| done].
  injection Hi as <-. by exists i, th, m', s', th'.
Qed.

Lemma try_lock_Some m m' :
  try_lock m = Some m' →
  exclusive m = false ∧ shared_count m = 0%nat ∧
  m' = {| exclusive := true; shared_count := 0 |}.
Proof.
  unfold try_lock. destruct (exclusive m); [done |]. cbn.
  case_bool_decide; [| done]. by intros [= <-].
Qed.

Lemma try_lock_shared_Some m m' :
  try_lock_shared m = Some m' →
  exclusive m = false ∧ m' = {| exclusive := false; shared_count := S (shared_count m) |}.
Proof. unfold try_lock_shared. destruct (exclusive m); [done |]. by intros [= <-]. Qed.

Lemma wifstream_open_cases path s :
  (∃ f, wifstream_open path s = (Return (Some f), more_streams 1 s)) ∨
  wifstream_open path s = (Return None, s).
Proof.
  unfold wifstream_open. destruct (files (world s) !! path); [left | by right].
  by eexists.
Qed.

Lemma thread_step_transition m s th m' s' th' :
  thread_step m s th = Some (m', s', th') → transition m th m' th'.
Proof.
  destruct th as [c|c|c [|a rest]|c o|t|t|f t|r]; cbn [thread_step]; intros H.
  - destruct (try_lock m) as [m1|] eqn:Hm; [| done]. injection H as <- <- <-.
    destruct (try_lock_Some _ _ Hm) as (? & ? & ->). by constructor.
  - case_bool_decide; injection H as <- <- <-; by constructor.
  - injection H as <- <- <-. by constructor.
  - destruct (a s) as [[[]|e] s1]; injection H as <- <- <-; by constructor.
  - done.
  - destruct (try_lock_shared m) as [m1|] eqn:Hm; [| done]. injection H as <- <- <-.
    destruct (try_lock_shared_Some _ _ Hm) as (? & ->). by constructor.
  - destruct (wifstream_open _ s) as [[[f|]|e] s1]; injection H as <- <- <-; by constructor.
  - destruct (good f).
    + destruct (extract f) as [line f']. injection H as <- <- <-. by constructor.
    + injection H as <- <- <-. by constructor.
  - done.
Qed.

Lemma consistent_step cfg cfg' : consistent cfg → step cfg cfg' → consistent cfg'.
Proof.
  intros (He & Hs & Hx) Hstep.
  destruct (step_inv _ _ Hstep) as (i & th & m' & s' & th' & Hi & Hst & ->).
  apply thread_step_transition in Hst. clear Hstep.
  pose proof (count_insert in_exclusive _ _ _ th' Hi) as Ce.
  pose proof (count_insert in_shared _ _ _ th' Hi) as Cs.
  pose proof (count_pos in_exclusive _ _ _ Hi) as Pe.
  pose proof (count_pos in_shared _ _ _ Hi) as Ps.
  unfold consistent. cbn [mutex threads].
  destruct (mutex cfg) as [e n]. cbn [exclusive shared_count] in *.
  inversion Hst; subst; clear Hst;
    try (destruct th; try discriminate);
    cbn [in_exclusive in_shared exclusive shared_count unlock unlock_shared Nat.b2n] in *;
    destruct e; cbn [Nat.b2n] in *; intuition lia.
Qed.

Lemma consistent_steps cfg cfg' : consistent cfg → steps cfg cfg' → consistent cfg'.
Proof. intros Hc Hs. induction Hs; eauto using consistent_step. Qed.

Lemma count_start_zero (P : thread → bool) pool :
  (∀ th, is_start th = true → P th = false) →
  Forall (λ th, is_start th = true) pool → count P pool = 0%nat.
Proof.
  intros HP. induction 1 as [|x pool Hx _ IH]; [done |].
  by rewrite count_cons, (HP x Hx), IH.
Qed.

Lemma consistent_initial cfg : initial cfg → consistent cfg.
Proof.
  intros [Hm Hf]. unfold consistent. rewrite Hm. cbn.
  rewrite !count_start_zero; try done; by intros [].
Qed.

(** The two lock modes, thread by thread. *)
Lemma exclusive_excludes cfg i th :
  consistent cfg → threads cfg !! i = Some th → in_exclusive th = true →
  exclusive (mutex cfg) = true ∧ shared_count (mutex cfg) = 0%nat ∧
  count in_shared (threads cfg) = 0%nat ∧ count has_stream (threads cfg) = 0%nat ∧
  ∀ j th', threads cfg !! j = Some th' → i ≠ j →
           in_exclusive th' = false ∧ in_shared th' = false.
Proof.
  intros (He & Hs & Hx) Hi Hth.
  pose proof (count_pos in_exclusive _ _ _ Hi Hth) as Pe.
  assert (Hex : exclusive (mutex cfg) = true).
  { destruct (exclusive (mutex cfg)); [done |]. cbn in He. lia. }
  rewrite Hex in He. cbn [Nat.b2n] in He. specialize (Hx Hex).
  assert (Hz : count in_shared (threads cfg) = 0%nat) by lia.
  pose proof (count_le has_stream in_shared (threads cfg)) as Hle.
  assert (count has_stream (threads cfg) ≤ count in_shared (threads cfg))%nat.
  { apply Hle. by intros []. }
  do 4 (split; [done || lia |]).
  intros j th' Hj Hne. split.
  - apply (count_one in_exclusive (threads cfg) i j th th'); [done ..].
  - by apply (count_zero in_shared (threads cfg) j th').
Qed.

Lemma shared_excludes cfg i th :
  consistent cfg → threads cfg !! i = Some th → in_shared th = true →
  exclusive (mutex cfg) = false ∧ (1 ≤ shared_count (mutex cfg))%nat ∧
  count in_exclusive (threads cfg) = 0%nat ∧
  ∀ j th', threads cfg !! j = Some th' → in_exclusive th' = false.
Proof.
  intros (He & Hs & Hx) Hi Hth.
  pose proof (count_pos in_shared _ _ _ Hi Hth) as Ps.
  assert (Hex : exclusive (mutex cfg) = false).
  { destruct (exclusive (mutex cfg)); [| done]. specialize (Hx eq_refl). lia. }
  rewrite Hex in He. cbn in He.
  repeat split; try done; [lia |].
  intros j th' Hj. by eapply (count_zero in_exclusive).
Qed.

Lemma free_excludes cfg :
  consistent cfg → exclusive (mutex cfg) = false →
  count in_exclusive (threads cfg) = 0%nat ∧
  ∀ j th', threads cfg !! j = Some th' → in_exclusive th' = false.
Proof.
  intros (He & Hs & Hx) Hex. rewrite Hex in He. cbn in He. split; [done |].
  intros j th' Hj. by eapply (count_zero in_exclusive).
Qed.

(** ** Every interleaving is serial *)

Lemma lookup_insert_thread (pool : list thread) i j th x :
  <[i := th]> pool !! j = Some x →
  (j = i ∧ x = th) ∨ (i ≠ j ∧ pool !! j = Some x).
Proof.
  intros H. apply list_lookup_insert_Some in H as [(-> & -> & _) | (? & ?)]; eauto.
Qed.

Lemma exec_skip s : exec (run_statements []) s = s.
Proof. reflexivity. Qed.


Lemma more_streams_more a b s : more_streams a (more_streams b s) = more_streams (a + b) s.
Proof. unfold more_streams, set_open_files. cbn. do 2 f_equal. lia. Qed.

Lemma close_more_streams k s : exec fstream_close (more_streams (S k) s) = more_streams k s.
Proof. reflexivity. Qed.

(** The steps of a reader. *)
Lemma serialised_reader_step s0 hist cfg i th m' s' th' :
  consistent cfg → serialised s0 hist cfg →
  threads cfg !! i = Some th → call_of th = None →
  thread_step (mutex cfg) (shared cfg) th = Some (m', s', th') →
  serialised s0 hist
    {| mutex := m'; shared := s'; threads := <[i := th']> (threads cfg) |}.
Proof.
  intros Hc (Hperm & Htest & Hbody & Hfree) Hi Hc0 Hst.
  pose proof (count_insert in_exclusive _ _ _ th' Hi) as Ce.
  pose proof (count_insert has_stream _ _ _ th' Hi) as Ch.
  assert (Hnone : count in_exclusive (threads cfg) = 0%nat ∧
                  ∀ j th', threads cfg !! j = Some th' → in_exclusive th' = false).
  { destruct th as [c|c|c rest|c o|t|t|f t|r]; try done; cbn [thread_step] in Hst.
    - destruct (try_lock_shared (mutex cfg)) as [m1|] eqn:Hm; [| done].
      destruct (try_lock_shared_Some _ _ Hm) as (Hex & _). by apply free_excludes.
    - by destruct (shared_excludes _ _ _ Hc Hi eq_refl) as (_ & _ & ? & ?).
    - by destruct (shared_excludes _ _ _ Hc Hi eq_refl) as (_ & _ & ? & ?). }
  destruct Hnone as [Hz Hnone]. specialize (Hfree Hz).
  assert (Hrest : ∀ th'' s'',
    in_exclusive th'' = false → done_call th'' = None →
    s'' = more_streams (count has_stream (<[i := th'']> (threads cfg))) (serial hist s0) →
    serialised s0 hist
      {| mutex := m'; shared := s''; threads := <[i := th'']> (threads cfg) |}).
  { intros th'' s'' He Hd Hs''. unfold serialised. cbn [threads shared].
    split; [rewrite (omap_insert_same done_call _ _ _ _ Hi); [done |] |].
    { rewrite Hd. by destruct th. }
    split; [| split; [| done]].
    - intros j c' Hj. apply lookup_insert_thread in Hj as [[_ Heq] | [_ Hj]].
      + by rewrite <- Heq in He.
      + by specialize (Hnone _ _ Hj).
    - intros j c' rest Hj. apply lookup_insert_thread in Hj as [[_ Heq] | [_ Hj]].
      + by rewrite <- Heq in He.
      + by specialize (Hnone _ _ Hj). }
  destruct th as [c|c|c rest|c o|t|t|f t|r]; try done; cbn [thread_step] in Hst.
  - destruct (try_lock_shared (mutex cfg)) as [m1|] eqn:Hm; [| done].
    injection Hst as <- <- <-. apply Hrest; [done .. |].
    cbn [has_stream Nat.b2n] in Ch. rewrite Hfree. f_equal. lia.
  - destruct (wifstream_open_cases (m_wstrLogFile (statics (shared cfg))) (shared cfg))
      as [[f Ho] | Ho]; rewrite Ho in Hst; injection Hst as <- <- <-;
      (apply Hrest; [done .. |]); cbn [has_stream Nat.b2n] in Ch.
    + rewrite Hfree at 1. rewrite more_streams_more. f_equal. lia.
    + rewrite Hfree at 1. f_equal. lia.
  - destruct (good f).
    + destruct (extract f) as [line f']. injection Hst as <- <- <-.
      apply Hrest; [done .. |]. cbn [has_stream Nat.b2n] in Ch. rewrite Hfree at 1.
      f_equal. lia.
    + injection Hst as <- <- <-. apply Hrest; [done .. |].
      cbn [has_stream Nat.b2n] in Ch. rewrite Hfree.
      replace (count has_stream (threads cfg))
        with (S (count has_stream (<[i := R_done (true, t)]> (threads cfg)))) by lia.
      apply close_more_streams.
Qed.



Lemma done_calls_start pool :
  Forall (λ th, is_start th = true) pool → done_calls pool = [].
Proof.
  induction 1 as [|x pool Hx _ IH]; [done |].
  unfold done_calls in *. rewrite omap_cons_thread, IH. by destruct x.
Qed.

Lemma serialised_initial cfg : initial cfg → serialised (shared cfg) [] cfg.
Proof.
  intros [Hm Hf]. unfold serialised.
  assert (Hno : ∀ i th, threads cfg !! i = Some th → is_start th = true).
  { intros i th Hi. by eapply (Forall_lookup_1 _ _ _ _ Hf). }
  split; [by rewrite done_calls_start |].
  split; [| split].
  - intros i c Hi. by specialize (Hno _ _ Hi).
  - intros i c rest Hi. by specialize (Hno _ _ Hi).
  - intros _. rewrite count_start_zero; [by rewrite more_streams_0 | by intros [] | done].
Qed.

Lemma writer_calls_step cfg cfg' :
  step cfg cfg' → writer_calls (threads cfg') = writer_calls (threads cfg).
Proof.
  intros Hstep.
  destruct (step_inv _ _ Hstep) as (i & th & m' & s' & th' & Hi & Hst & ->).
  apply (omap_insert_same call_of _ _ _ _ Hi).
  apply thread_step_transition in Hst. inversion Hst; subst; try done.
  by destruct th.
Qed.

Lemma writer_calls_steps cfg cfg' :
  steps cfg cfg' → writer_calls (threads cfg') = writer_calls (threads cfg).
Proof.
  induction 1 as [|cfg cfg1 cfg2 Hstep _ IH]; [done |].
  by rewrite IH, (writer_calls_step _ _ Hstep).
Qed.

Lemma done_calls_all_done pool :
  Forall (λ th, is_done th = true) pool → done_calls pool = writer_calls pool.
Proof.
  induction 1 as [|x pool Hx _ IH]; [done |].
  unfold done_calls, writer_calls in *. rewrite !omap_cons_thread, IH. by destruct x.
Qed.

Lemma count_done_zero (P : thread → bool) pool :
  (∀ th, is_done th = true → P th = false) →
  Forall (λ th, is_done th = true) pool → count P pool = 0%nat.
Proof.
  intros HP. induction 1 as [|x pool Hx _ IH]; [done |].
  by rewrite count_cons, (HP x Hx), IH.
Qed.


(** ** Every interleaving can be completed *)




Lemma extract_bound f : good f = true → (loop_bound (extract f).2 < loop_bound f)%nat.
Proof.
  intros Hg. unfold loop_bound at 2. rewrite Hg. unfold extract.
  pose proof (length_skip_ws (pending f)) as Hlen.
  destruct (skip_ws (pending f)) as [|c r] eqn:Hs; [cbn; lia |].
  destruct (skip_ws_cons _ _ _ Hs) as [Hc _].
  pose proof (f_equal length (read_word_app (c :: r))) as Happ.
  rewrite length_app in Happ.
  assert (Hw : (1 ≤ length (read_word (c :: r)).1)%nat).
  { cbn. rewrite Hc. destruct (read_word r). cbn. lia. }
  destruct (read_word (c :: r)) as [w rest]. cbn [fst snd] in *.
  unfold loop_bound, good. cbn [eofbit failbit pending snd].
  case_bool_decide; cbn [negb andb length] in *; lia.
Qed.






(** ** The output of a serial execution *)



(** ** Threads: the result *)



(** * Further properties *)

(** ** The time stamp *)

Lemma Zall_spec n lo P :
  Zall n lo P = true → ∀ z, lo ≤ z < lo + Z.of_nat n → P z = true.
Proof.
  revert lo. induction n as [|n IH]; intros lo H z Hz; [lia |].
  cbn [Zall] in H. destruct (P lo) eqn:Hlo; [| done].
  destruct (decide (z = lo)) as [-> | Hne]; [done |].
  apply (IH (lo + 1) H). lia.
Qed.

Lemma to_int32_small z : - 2 ^ 31 ≤ z < 2 ^ 31 → to_int32 z = z.
Proof. intros Hz. unfold to_int32. rewrite Z.mod_small; lia. Qed.

Lemma convert_two_digits z :
  0 ≤ z < 100 → convert false true 2 conv_d (AInt z) = Some (two_digits z).
Proof.
  intros Hz. cbn [convert]. rewrite to_int32_small by lia.
  rewrite bool_decide_eq_false_2 by lia. f_equal.
  assert (H : Zall 100 0 (λ z, bool_decide (pad false true 2 [] (dec_abs z) = two_digits z))
              = true) by (vm_compute; reflexivity).
  assert (Hz' : 0 ≤ z < 0 + Z.of_nat 100) by lia.
  apply (Zall_spec _ _ _ H) in Hz'. by apply bool_decide_eq_true_1 in Hz'.
Qed.

Lemma convert_four_digits z :
  1000 ≤ z ≤ 9999 → convert false false 0 conv_d (AInt z) = Some (four_digits z).
Proof.
  intros Hz. cbn [convert]. rewrite to_int32_small by lia.
  rewrite bool_decide_eq_false_2 by lia. f_equal.
  assert (H : Zall (Z.to_nat 9000) 1000
                (λ z, bool_decide (pad false false 0 [] (dec_abs z) = four_digits z))
              = true) by (vm_compute; reflexivity).
  assert (Hz' : 1000 ≤ z < 1000 + Z.of_nat (Z.to_nat 9000)) by lia.
  apply (Zall_spec _ _ _ H) in Hz'. by apply bool_decide_eq_true_1 in Hz'.
Qed.

(** X1. The time stamp never has more than 19 characters. For a date
    with a four-digit year it has exactly 19, in the layout
    YYYY-MM-DD hh:mm:ss with every field but the year written with two
    digits. *)
Theorem getCurrentLocalTime_layout tmNow :
  (length (getCurrentLocalTime tmNow) ≤ 19)%nat ∧
  (tm_in_range tmNow →
   getCurrentLocalTime tmNow
   = four_digits (tm_year tmNow + 1900) ++ L "-" ++ two_digits (tm_mon tmNow + 1) ++
     L "-" ++ two_digits (tm_mday tmNow) ++ L " " ++ two_digits (tm_hour tmNow) ++
     L ":" ++ two_digits (tm_min tmNow) ++ L ":" ++ two_digits (tm_sec tmNow) ∧
   length (getCurrentLocalTime tmNow) = 19%nat).
Proof.
  split.
  - unfold getCurrentLocalTime, snprintf.
    destruct (format_text _ _) as [text|]; cbn; [| lia].
    rewrite length_take. lia.
  - intros (Hy & Hmo & Hd & Hh & Hmi & Hs).
    assert (Heq : getCurrentLocalTime tmNow
      = four_digits (tm_year tmNow + 1900) ++ L "-" ++ two_digits (tm_mon tmNow + 1) ++
        L "-" ++ two_digits (tm_mday tmNow) ++ L " " ++ two_digits (tm_hour tmNow) ++
        L ":" ++ two_digits (tm_min tmNow) ++ L ":" ++ two_digits (tm_sec tmNow)).
    { unfold getCurrentLocalTime, snprintf, format_text.
      let p := eval vm_compute in (parse_format Plain (L "%d-%02d-%02d %02d:%02d:%02d")) in
      change (parse_format Plain (L "%d-%02d-%02d %02d:%02d:%02d")) with p.
      cbn [mbind option_bind render].
      rewrite convert_four_digits by lia.
      rewrite !convert_two_digits by lia.
      reflexivity. }
    split; [done |]. by rewrite Heq.
Qed.

Lemma getCurrentLocalTime_layout_witness :
  length (getCurrentLocalTime (localtime env_sample)) = 19%nat.
Proof.
  apply (getCurrentLocalTime_layout (localtime env_sample)).
  unfold tm_in_range. cbn. lia.
Defined.

(** ** The metadata block *)

Lemma length_pad_lj w sign body :
  length (pad true false w sign body) = (w `max` length (sign ++ body))%nat.
Proof. unfold pad. rewrite !length_app, length_replicate. lia. Qed.

Lemma length_int_field_ge w z : (w ≤ length (int_field w z))%nat.
Proof. unfold int_field. rewrite length_pad_lj. lia. Qed.

Lemma length_int_field_5 z : 0 ≤ z < 100000 → length (int_field 5 z) = 5%nat.
Proof.
  intros Hz.
  assert (H : Zall (Z.to_nat 100000) 0
                (λ z, bool_decide (length (int_field 5 z) = 5%nat)) = true)
    by (vm_compute; reflexivity).
  assert (Hz' : 0 ≤ z < 0 + Z.of_nat (Z.to_nat 100000)) by lia.
  apply (Zall_spec _ _ _ H) in Hz'. by apply bool_decide_eq_true_1 in Hz'.
Qed.

Lemma length_int_field_4 z : 0 ≤ z < 10000 → length (int_field 4 z) = 4%nat.
Proof.
  intros Hz.
  assert (H : Zall (Z.to_nat 10000) 0
                (λ z, bool_decide (length (int_field 4 z) = 4%nat)) = true)
    by (vm_compute; reflexivity).
  assert (Hz' : 0 ≤ z < 0 + Z.of_nat (Z.to_nat 10000)) by lia.
  apply (Zall_spec _ _ _ H) in Hz'. by apply bool_decide_eq_true_1 in Hz'.
Qed.

Lemma length_metadata pid tid file function line :
  length (metadata pid tid file function line)
  = (28 + length (int_field 5 pid) + length (int_field 5 tid) + length file +
     length function + length (int_field 4 line))%nat.
Proof.
  unfold metadata. rewrite !length_app.
  change (length (L " [PID : ")) with 8%nat. change (length (L "] [TID : ")) with 9%nat.
  change (length (L "] [")) with 3%nat. change (length (L " : ")) with 3%nat.
  change (length (L "] ")) with 2%nat. lia.
Qed.

(** X2. What [swprintf] leaves in [logInfo] is the metadata cut to 99
    characters. File and function names of more than 57 characters in
    total are always cut into, so that the block no longer ends in its
    closing bracket and space; with names of at most 57 characters in
    total, ids below 100000 and a line number below 10000, the block
    is whole and has 42 characters more than the two names. *)
Theorem logInfo_capacity pid tid file function line :
  let written := take 99 (metadata pid tid file function line) in
  swprintf 100 (L " [PID : %-5d] [TID : %-5d] [%-ls] [%-ls : %-4d] ")
    [AInt pid; AInt tid; AStr file; AStr function; AInt line] = Some written ∧
  (length written ≤ 99)%nat ∧
  ((57 < length file + length function)%nat →
   length written = 99%nat ∧ written ≠ metadata pid tid file function line) ∧
  (0 ≤ pid < 100000 → 0 ≤ tid < 100000 → 0 ≤ line < 10000 →
   (length file + length function ≤ 57)%nat →
   written = metadata pid tid file function line ∧
   length written = (42 + length file + length function)%nat).
Proof.
  intros written. subst written.
  pose proof (length_metadata pid tid file function line) as Hlen.
  pose proof (length_int_field_ge 5 pid). pose proof (length_int_field_ge 5 tid).
  pose proof (length_int_field_ge 4 line).
  split; [apply metadata_swprintf |].
  split; [rewrite length_take; lia |]. split.
  - intros Hlong.
    assert (Hcut : length (take 99 (metadata pid tid file function line)) = 99%nat)
      by (rewrite length_take; lia).
    split; [done |]. intros Heq. rewrite Heq in Hcut. lia.
  - intros Hpid Htid Hline Hshort.
    rewrite (length_int_field_5 pid), (length_int_field_5 tid),
      (length_int_field_4 line) in Hlen by done.
    rewrite take_ge by lia. split; [done | lia].
Qed.

Lemma logInfo_capacity_witness :
  take 99 (metadata 4242 7 (L "log.cpp") (L "main") 12)
    = metadata 4242 7 (L "log.cpp") (L "main") 12 ∧
  length (take 99 (metadata 4242 7 (L "log.cpp") (L "main") 12))
    = (42 + length (L "log.cpp") + length (L "main"))%nat.
Proof.
  apply (logInfo_capacity 4242 7 (L "log.cpp") (L "main") 12); cbn; lia.
Defined.

(** ** What [writeLog] leaves alone *)

(** Every call either leaves the surroundings as they are or ends in
    one dispatch of the buffer it has composed. *)
Lemma writeLog_world env lvl file function line fmt args s :
  ∃ b,
    statics (exec (writeLog env lvl file function line fmt args) s)
      = set_m_wstrLogBuffer b (statics s) ∧
    (world (exec (writeLog env lvl file function line fmt args) s) = world s ∨
     world (exec (writeLog env lvl file function line fmt args) s)
       = dispatched (m_LogTarget (statics s)) (m_wstrLogFile (statics s)) b (world s)).
Proof.
  unfold exec.
  destruct (writeLog_cases env lvl file function line fmt args s)
    as [[_ ->] | [(_ & e & b & ->) | (_ & name & message & _ & _ & _ & ->)]].
  - exists (m_wstrLogBuffer (statics s)). split; [by destruct s as [[]] | by left].
  - eexists. split; [done |]. by left.
  - rewrite outputToTarget_run. eexists. split; [done |]. by right.
Qed.

(** X3. Whatever its arguments and the state, a call of [writeLog]
    leaves level, target mask and path, the instance pointer and the
    once-flag as they are, and does not touch the locale, the heap or
    the number of open streams. *)
Theorem writeLog_keeps_registry env lvl file function line fmt args s :
  let s' := exec (writeLog env lvl file function line fmt args) s in
  configuration s' = configuration s ∧
  m_Log (statics s') = m_Log (statics s) ∧
  m_ResourceFlag (statics s') = m_ResourceFlag (statics s) ∧
  locale (world s') = locale (world s) ∧
  heap_next (world s') = heap_next (world s) ∧
  open_files (world s') = open_files (world s).
Proof.
  intros s'. subst s'. unfold configuration.
  destruct (writeLog_world env lvl file function line fmt args s) as (b & -> & [-> | ->]).
  - done.
  - cbn [statics set_m_wstrLogBuffer m_LogLevel m_LogTarget m_wstrLogFile m_Log
      m_ResourceFlag].
    unfold dispatched. by destruct (console_bit _), (file_bit _), (can_append _ _).
Qed.

(** X4. A call of [writeLog] only ever adds to its outputs: the
    console before the call is a prefix of the console after it, the
    content of every file is a prefix of its content after the call, no
    file disappears, and every file other than the configured one is
    exactly as before. *)
Theorem writeLog_only_appends env lvl file function line fmt args s :
  let s' := exec (writeLog env lvl file function line fmt args) s in
  console (world s) `prefix_of` console (world s') ∧
  (∀ p, default [] (files (world s) !! p) `prefix_of` default [] (files (world s') !! p)) ∧
  (∀ p, is_Some (files (world s) !! p) → is_Some (files (world s') !! p)) ∧
  (∀ p, p ≠ m_wstrLogFile (statics s) → files (world s') !! p = files (world s) !! p).
Proof.
  intros s'. subst s'.
  destruct (writeLog_world env lvl file function line fmt args s) as (b & _ & [-> | ->]).
  - split; [reflexivity |]. split; [intros p; reflexivity | done].
  - rewrite console_dispatched, files_dispatched.
    split; [by apply prefix_app_r |].
    destruct (file_bit _ && can_append _ _); [| done].
    split; [| split].
    + intros p. destruct (decide (p = m_wstrLogFile (statics s))) as [-> | Hne].
      * rewrite lookup_insert_eq. cbn. by apply prefix_app_r.
      * by rewrite lookup_insert_ne.
    + intros p Hp. destruct (decide (p = m_wstrLogFile (statics s))) as [-> | Hne].
      * by rewrite lookup_insert_eq.
      * by rewrite lookup_insert_ne.
    + intros p Hne. by rewrite lookup_insert_ne.
Qed.

Lemma writeLog_only_appends_witness :
  files
    (world (exec (writeLog env_sample LOG_LEVEL_INFO (L "log.cpp") (L "main") 12
                    (L "hello %d") [AInt 5]) Sys_logged))
    !! L "./other.log"
  = files (world Sys_logged) !! L "./other.log".
Proof.
  refine (proj2 (proj2 (proj2
            (writeLog_only_appends env_sample LOG_LEVEL_INFO (L "log.cpp") (L "main") 12
               (L "hello %d") [AInt 5] Sys_logged))) (L "./other.log") _).
  vm_compute. discriminate.
Defined.

(** ** Level NONE, silent configurations, thresholds *)

(** X5. A call at level NONE never returns normally: in every state
    and with every argument it ends in the [out_of_range] of the
    display-name lookup, having replaced the buffer by a newline, 60
    markers and a space, and without any effect on console, files or
    trace. *)
Theorem writeLog_NONE_throws env file function line fmt args s :
  let call := writeLog env LOG_LEVEL_NONE file function line fmt args in
  result call s = Throw out_of_range ∧
  m_wstrLogBuffer (statics (exec call s)) = [NL] ++ replicate 60 42 ++ L " " ∧
  world (exec call s) = world s.
Proof.
  intros call. subst call. unfold result, exec.
  by rewrite writeLog_no_name; [| apply LOGLEVEL_val_nonneg | apply at_NONE].
Qed.

(** X6. With the target mask NONE, or with the threshold NONE, no call
    of [writeLog] has any effect on console, files or trace, whatever
    its level and arguments. *)
Theorem writeLog_silent env lvl file function line fmt args s :
  m_LogTarget (statics s) = LOG_TARGET_NONE ∨ m_LogLevel (statics s) = LOG_LEVEL_NONE →
  world (exec (writeLog env lvl file function line fmt args) s) = world s ∧
  emitted (writeLog env lvl file function line fmt args) s = [].
Proof.
  intros Hquiet.
  assert (Hw : world (exec (writeLog env lvl file function line fmt args) s) = world s).
  { destruct Hquiet as [Ht | Hl].
    - destruct (writeLog_world env lvl file function line fmt args s)
        as (b & _ & [-> | ->]); [done |]. by rewrite Ht.
    - unfold exec. destruct lvl.
      + by rewrite writeLog_no_name; [| apply LOGLEVEL_val_nonneg | apply at_NONE].
      + by rewrite writeLog_filtered by (rewrite Hl; cbn; lia).
      + by rewrite writeLog_filtered by (rewrite Hl; cbn; lia).
      + by rewrite writeLog_filtered by (rewrite Hl; cbn; lia).
      + by rewrite writeLog_filtered by (rewrite Hl; cbn; lia). }
  split; [done |]. by apply emitted_unchanged_world.
Qed.

Lemma writeLog_silent_witness :
  emitted (writeLog env_sample LOG_LEVEL_ERROR (L "log.cpp") (L "main") 12 (L "hello %d")
             [AInt 5]) Sys_sample_mute = [].
Proof.
  apply (writeLog_silent env_sample LOG_LEVEL_ERROR (L "log.cpp") (L "main") 12
           (L "hello %d") [AInt 5] Sys_sample_mute).
  left. reflexivity.
Defined.

(** A call that emits output has passed the filter with a display
    name, conversions that fit and a defined message. *)
Lemma emits_output_passes env lvl file function line fmt args s :
  emits_output (writeLog env lvl file function line fmt args) s →
  LOGLEVEL_val lvl ≤ LOGLEVEL_val (m_LogLevel (statics s)) ∧
  ∃ name message,
    LOGLEVEL_WSTRING_find lvl = Some name ∧
    fits env fmt ∧
    vswprintf 256 (MultiByteToWideChar env fmt) args = Some message.
Proof.
  unfold emits_output. intros Hem.
  destruct (writeLog_cases env lvl file function line fmt args s)
    as [[_ Hrun] | [(_ & e & b & Hrun) | (Hle & name & message & Hname & Hfits & Hmsg & _)]].
  - exfalso. apply Hem. rewrite emitted_unchanged_world; [done |].
    unfold exec. by rewrite Hrun.
  - exfalso. apply Hem. rewrite emitted_unchanged_world; [done |].
    unfold exec. by rewrite Hrun.
  - split; [done |]. by exists name, message.
Qed.

(** X7. Raising the threshold with [setLogLevel] never silences a
    call: a call that emits output under the current threshold emits
    the same output after the threshold has been set to a numerically
    greater or equal level. *)
Theorem setLogLevel_raise_keeps_output env lvl file function line fmt args s T :
  LOGLEVEL_val (m_LogLevel (statics s)) ≤ LOGLEVEL_val T →
  emits_output (writeLog env lvl file function line fmt args) s →
  emitted (writeLog env lvl file function line fmt args) (exec (setLogLevel T) s)
  = emitted (writeLog env lvl file function line fmt args) s ∧
  emits_output (writeLog env lvl file function line fmt args) (exec (setLogLevel T) s).
Proof.
  intros HT Hem.
  destruct (emits_output_passes _ _ _ _ _ _ _ _ Hem)
    as (Hle & name & message & Hname & Hfits & Hmsg).
  assert (Heq : emitted (writeLog env lvl file function line fmt args)
                  (exec (setLogLevel T) s)
                = emitted (writeLog env lvl file function line fmt args) s).
  { rewrite (emitted_writeLog_passes _ _ _ _ _ _ _ _ _ _ Hle Hname Hfits Hmsg).
    rewrite (emitted_writeLog_passes _ _ _ _ _ _ _ (exec (setLogLevel T) s) name message);
      [done | cbn; lia | done ..]. }
  split; [done |]. unfold emits_output. by rewrite Heq.
Qed.

Lemma setLogLevel_raise_keeps_output_witness :
  emits_output
    (writeLog env_sample LOG_LEVEL_ERROR (L "log.cpp") (L "main") 12 (L "hello %d") [AInt 5])
    (exec (setLogLevel LOG_LEVEL_INFO) Sys_sample_warning).
Proof.
  apply (setLogLevel_raise_keeps_output env_sample LOG_LEVEL_ERROR (L "log.cpp") (L "main")
           12 (L "hello %d") [AInt 5] Sys_sample_warning LOG_LEVEL_INFO).
  - vm_compute. discriminate.
  - vm_compute. discriminate.
Defined.

(** ** Explicit initialisation *)

(** X8. Two explicit calls of [Init] in a row: the configuration is
    that of the second call, the instance is the one the first call
    has left (allocated there when there was none), at most one object
    is allocated, the body of [Init] has run twice, and the once-flag,
    the buffer, the console and the files are untouched. *)
Theorem Init_twice l1 t1 p1 l2 t2 p2 s :
  let first := exec (Init l1 t1 p1) s in
  let s' := exec (Init l1 t1 p1;; Init l2 t2 p2) s in
  result (Init l1 t1 p1;; Init l2 t2 p2) s = Return () ∧
  configuration s' = (l2, t2, p2) ∧
  is_Some (m_Log (statics s')) ∧
  m_Log (statics s') = m_Log (statics first) ∧
  (heap_next (world s') ≤ S (heap_next (world s)))%nat ∧
  emitted (Init l1 t1 p1;; Init l2 t2 p2) s = [InitRun l1 t1 p1; InitRun l2 t2 p2] ∧
  m_ResourceFlag (statics s') = m_ResourceFlag (statics s) ∧
  m_wstrLogBuffer (statics s') = m_wstrLogBuffer (statics s) ∧
  console (world s') = console (world s) ∧
  files (world s') = files (world s).
Proof.
  intros first s'. subst first s'.
  assert (Hrun : (Init l1 t1 p1;; Init l2 t2 p2) s
                 = (Return (), initialised l2 t2 p2 (initialised l1 t1 p1 s))).
  { rewrite (bind_Return _ _ _ _ _ (Init_run l1 t1 p1 s)). apply Init_run. }
  unfold result, exec. rewrite Hrun, Init_run. cbn [fst snd].
  repeat split; try done.
  - cbn. destruct (m_Log (statics s)); lia.
  - apply emitted_app. unfold exec. rewrite Hrun. cbn. by rewrite <- app_assoc.
Qed.

(** X9. An explicit [Init] does not consume the once-flag: the first
    [Instance] after it runs the body of [Init] once more, with the
    values that the explicit call has set, so that the configuration
    stays the one of the explicit call; it returns the instance that
    the explicit call has created, allocates nothing, and consumes the
    flag. *)
Theorem Init_then_Instance l t p s :
  m_ResourceFlag (statics s) = false →
  let first := exec (Init l t p) s in
  let s' := exec (Init l t p;; Instance) s in
  result (Init l t p;; Instance) s = Return (m_Log (statics first)) ∧
  is_Some (m_Log (statics first)) ∧
  configuration s' = (l, t, p) ∧
  emitted (Init l t p;; Instance) s = [InitRun l t p; InitRun l t p] ∧
  heap_next (world s') = heap_next (world first) ∧
  m_ResourceFlag (statics s') = true.
Proof.
  intros Hflag first s'. subst first s'.
  pose proof (Init_run l t p s) as H1.
  assert (Hflag1 : m_ResourceFlag (statics (initialised l t p s)) = false) by done.
  pose proof (Instance_first _ Hflag1) as H2.
  assert (Hrun : (Init l t p;; Instance) s = Instance (initialised l t p s))
    by by rewrite (bind_Return _ _ _ _ _ H1).
  unfold result, exec. rewrite Hrun, H2, H1. cbn [fst snd].
  repeat split; try done.
  apply emitted_app. unfold exec. rewrite Hrun, H2. cbn. by rewrite <- app_assoc.
Qed.

Lemma Init_then_Instance_witness :
  configuration
    (exec (Init LOG_LEVEL_DEBUG LOG_TARGET_FILE (L "./t.log");; Instance) Sys_initial)
  = (LOG_LEVEL_DEBUG, LOG_TARGET_FILE, L "./t.log").
Proof.
  apply (Init_then_Instance LOG_LEVEL_DEBUG LOG_TARGET_FILE (L "./t.log") Sys_initial).
  reflexivity.
Defined.

(** X10. Once the accessor has consumed the once-flag, an explicit
    [Init] still reconfigures the logger: after [Instance], [Init] and
    [Instance] again, both accessor calls have returned one and the
    same instance, the configuration is that of the explicit call, and
    the body of [Init] has run twice, once for the accessor with the
    values found and once for the explicit call. *)
Theorem Instance_Init_Instance l t p s :
  m_ResourceFlag (statics s) = false →
  let run := a ← Instance; Init l t p;; b ← Instance; mret (a, b) in
  ∃ x,
    result run s = Return (Some x, Some x) ∧
    configuration (exec run s) = (l, t, p) ∧
    emitted run s
    = [InitRun (m_LogLevel (statics s)) (m_LogTarget (statics s))
         (m_wstrLogFile (statics s)); InitRun l t p] ∧
    (heap_next (world (exec run s)) ≤ S (heap_next (world s)))%nat.
Proof.
  intros Hflag run. subst run.
  pose proof (Instance_first s Hflag) as H1.
  set (s1 := {| statics := _; world := _ |}) in H1.
  pose proof (Init_run l t p s1) as H2.
  assert (Hflag2 : m_ResourceFlag (statics (initialised l t p s1)) = true) by done.
  pose proof (Instance_again _ Hflag2) as H3.
  exists (default (heap_next (world s)) (m_Log (statics s))).
  assert (Hrun : (a ← Instance; Init l t p;; b ← Instance; mret (a, b)) s
                 = (Return (Some (default (heap_next (world s)) (m_Log (statics s))),
                            Some (default (heap_next (world s)) (m_Log (statics s)))),
                    initialised l t p s1)).
  { rewrite (bind_Return _ _ _ _ _ H1), (bind_Return _ _ _ _ _ H2),
      (bind_Return _ _ _ _ _ H3). done. }
  unfold result, exec. rewrite Hrun. cbn [fst snd].
  repeat split; try done.
  - apply emitted_app. unfold exec. rewrite Hrun. subst s1. cbn. by rewrite <- app_assoc.
  - subst s1. cbn. destruct (m_Log (statics s)); lia.
Qed.

Lemma Instance_Init_Instance_witness :
  ∃ x,
    result (a ← Instance; Init LOG_LEVEL_DEBUG LOG_TARGET_FILE (L "./t.log");;
            b ← Instance; mret (a, b)) Sys_initial
    = Return (Some x, Some x) ∧
    configuration
      (exec (a ← Instance; Init LOG_LEVEL_DEBUG LOG_TARGET_FILE (L "./t.log");;
             b ← Instance; mret (a, b)) Sys_initial)
    = (LOG_LEVEL_DEBUG, LOG_TARGET_FILE, L "./t.log") ∧
    emitted (a ← Instance; Init LOG_LEVEL_DEBUG LOG_TARGET_FILE (L "./t.log");;
             b ← Instance; mret (a, b)) Sys_initial
    = [InitRun (m_LogLevel (statics Sys_initial)) (m_LogTarget (statics Sys_initial))
         (m_wstrLogFile (statics Sys_initial));
       InitRun LOG_LEVEL_DEBUG LOG_TARGET_FILE (L "./t.log")] ∧
    (heap_next
       (world (exec (a ← Instance; Init LOG_LEVEL_DEBUG LOG_TARGET_FILE (L "./t.log");;
                     b ← Instance; mret (a, b)) Sys_initial))
     ≤ S (heap_next (world Sys_initial)))%nat.
Proof.
  apply (Instance_Init_Instance LOG_LEVEL_DEBUG LOG_TARGET_FILE (L "./t.log") Sys_initial).
  reflexivity.
Defined.

(** ** Writing and reading back *)














(** ** What a read always appends *)

Lemma words_from_last_word cur a c :
  isspace c = false → words_from cur (a ++ [c]) ≠ [].
Proof.
  intros Hc. revert cur. induction a as [|x a IH]; intros cur.
  - cbn. rewrite Hc. cbn. rewrite bool_decide_eq_false_2; [done |].
    by destruct cur.
  - cbn. destruct (isspace x); [| apply IH].
    intros H. apply app_eq_nil in H as [_ H]. by apply IH in H.
Qed.

Lemma words_all_blank s : Forall (λ c, isspace c = true) s → words s = [].
Proof.
  unfold words. induction 1 as [|c s Hc _ IH]; [done |].
  cbn. by rewrite Hc, IH.
Qed.

Lemma ends_blank_all_blank s : Forall (λ c, isspace c = true) s → ends_blank s = true.
Proof.
  intros H. unfold ends_blank. destruct (last s) as [c|] eqn:Hl; [| done].
  apply last_Some in Hl as [s' ->]. apply Forall_app in H as [_ H].
  by inversion H.
Qed.

(** X13. A read of a file that exists never leaves the vector as it
    was: at least one element is appended. When the file is empty or
    holds nothing but white space, exactly one element is appended,
    the empty string. *)
Theorem getLogFromFile_appends_something _LogTable s content :
  files (world s) !! m_wstrLogFile (statics s) = Some content →
  (∃ x read, result (getLogFromFile _LogTable) s = Return (true, _LogTable ++ x :: read)) ∧
  (Forall (λ c, isspace c = true) content →
   result (getLogFromFile _LogTable) s = Return (true, _LogTable ++ [[]])).
Proof.
  intros Hf. unfold result. rewrite (getLogFromFile_present _ _ _ Hf). cbn [fst]. split.
  - destruct (ends_blank content) eqn:Hb.
    + destruct (words content) as [|x read]; cbn; eauto.
    + unfold ends_blank in Hb. destruct (last content) as [c|] eqn:Hl; [| done].
      apply last_Some in Hl as [a ->].
      pose proof (words_from_last_word [] a c Hb) as Hne. fold (words (a ++ [c])) in Hne.
      destruct (words (a ++ [c])) as [|x read]; [done |].
      exists x, read. by rewrite app_nil_r.
  - intros Hall. by rewrite (words_all_blank _ Hall), (ends_blank_all_blank _ Hall).
Qed.

Lemma getLogFromFile_appends_something_witness :
  ∃ x read, result (getLogFromFile [L "old"]) Sys_logged
            = Return (true, [L "old"] ++ x :: read).
Proof.
  apply (getLogFromFile_appends_something [L "old"] Sys_logged
           (block_of (call_sample LOG_LEVEL_INFO 7 5))).
  vm_compute. reflexivity.
Defined.

(** ** Readers among writers *)

Lemma reader_view_mono s0 pool0 hist hist' i th :
  hist `prefix_of` hist' → reader_view s0 pool0 hist i th → reader_view s0 pool0 hist' i th.
Proof.
  intros Hpre. destruct th as [c|c|c rest|c o|t|t|f t|r]; cbn [reader_view]; try done.
  - intros (t0 & h & table & H0 & Hh & Hres & Hloop).
    exists t0, h, table. split; [done |]. split; [by etrans |]. done.
  - intros (t0 & h & H0 & Hh & Hres).
    exists t0, h. split; [done |]. split; [by etrans |]. done.
Qed.

(** A bound that suffices gives the result of any other bound. *)
Lemma read_loop_fuel n m f _LogTable table :
  read_loop n f _LogTable = Some table → (loop_bound f ≤ m)%nat →
  read_loop m f _LogTable = Some table.
Proof.
  revert m f _LogTable. induction n as [|n IH]; intros m f tbl Hn Hm.
  - cbn [read_loop] in Hn. destruct (good f) eqn:Hg; [done |].
    destruct m; cbn [read_loop]; by rewrite Hg.
  - cbn [read_loop] in Hn. destruct (good f) eqn:Hg.
    + pose proof (extract_bound f Hg) as Hb.
      destruct m as [|m]; [unfold loop_bound in Hm; rewrite Hg in Hm; lia |].
      cbn [read_loop]. rewrite Hg.
      destruct (extract f) as [line f']. cbn [snd] in Hb. apply IH; [done | lia].
    + destruct m; cbn [read_loop]; by rewrite Hg.
Qed.

(** The steps of a writer: the list of the calls that have returned
    grows at its end. *)
Lemma serialised_writer_step_order s0 hist cfg i th m' s' th' :
  consistent cfg → serialised s0 hist cfg →
  threads cfg !! i = Some th → is_Some (call_of th) →
  thread_step (mutex cfg) (shared cfg) th = Some (m', s', th') →
  ∃ hist',
    hist `prefix_of` hist' ∧
    serialised s0 hist'
      {| mutex := m'; shared := s'; threads := <[i := th']> (threads cfg) |}.
Proof.
  intros Hc (Hperm & Htest & Hbody & Hfree) Hi [c0 Hc0] Hst.
  pose proof (count_insert in_exclusive _ _ _ th' Hi) as Ce.
  pose proof (count_insert has_stream _ _ _ th' Hi) as Ch.
  destruct th as [c|c|c [|a rest]|c o|t|t|f t|r]; try done; cbn [thread_step] in Hst.
  - destruct (try_lock (mutex cfg)) as [m1|] eqn:Hm; [| done]. injection Hst as <- <- <-.
    destruct (try_lock_Some _ _ Hm) as (Hex & Hn & ->).
    destruct (free_excludes _ Hc Hex) as [Hz Hnone].
    assert (Hs : shared cfg = serial hist s0).
    { rewrite (Hfree Hz). destruct Hc as (_ & Hsh & _). rewrite Hn in Hsh.
      pose proof (count_le has_stream in_shared (threads cfg)) as Hle.
      assert (count has_stream (threads cfg) = 0%nat) as ->; [| apply more_streams_0].
      assert (count has_stream (threads cfg) ≤ count in_shared (threads cfg))%nat; [| lia].
      apply Hle. by intros []. }
    exists hist. split; [done |]. unfold serialised. cbn [threads shared].
    split; [by rewrite (omap_insert_same done_call _ _ _ _ Hi) |].
    split; [done |]. split.
    + intros j c' rest Hj. apply lookup_insert_thread in Hj as [[_ [=]] | [_ Hj]].
      by specialize (Hnone _ _ Hj).
    + cbn [in_exclusive Nat.b2n] in Ce. lia.
  - destruct (exclusive_excludes _ _ _ Hc Hi eq_refl) as (_ & _ & _ & Hh & Hother).
    pose proof (Htest _ _ Hi) as Hs.
    case_bool_decide as Hlvl; injection Hst as <- <- <-.
    + exists (hist ++ [c]). split; [by apply prefix_app_r |].
      unfold serialised. cbn [threads shared].
      split; [by rewrite (omap_insert_new done_call _ _ _ _ c Hi), Hperm |].
      split; [| split].
      * intros j c' Hj. apply lookup_insert_thread in Hj as [[_ [=]] | [Hne Hj]].
        by destruct (Hother _ _ Hj Hne).
      * intros j c' rest Hj. apply lookup_insert_thread in Hj as [[_ [=]] | [Hne Hj]].
        by destruct (Hother _ _ Hj Hne).
      * intros _. cbn [has_stream Nat.b2n] in Ch.
        assert (count has_stream (<[i := W_done c (Return ())]> (threads cfg)) = 0%nat)
          as -> by lia.
        rewrite more_streams_0, serial_snoc, <- Hs.
        by rewrite exec_writeLog_filtered.
    + exists hist. split; [done |]. unfold serialised. cbn [threads shared].
      split; [by rewrite (omap_insert_same done_call _ _ _ _ Hi) |].
      split; [| split].
      * intros j c' Hj. apply lookup_insert_thread in Hj as [[_ [=]] | [Hne Hj]].
        by destruct (Hother _ _ Hj Hne).
      * intros j c' rest Hj. apply lookup_insert_thread in Hj as [[_ [= -> ->]] | [Hne Hj]].
        -- rewrite <- Hs. symmetry. by apply exec_writeLog_statements.
        -- by destruct (Hother _ _ Hj Hne).
      * cbn [in_exclusive Nat.b2n] in Ce.
        pose proof (count_pos in_exclusive _ _ _ Hi eq_refl). lia.
  - destruct (exclusive_excludes _ _ _ Hc Hi eq_refl) as (_ & _ & _ & Hh & Hother).
    pose proof (Hbody _ _ _ Hi) as Hs. rewrite exec_skip in Hs.
    injection Hst as <- <- <-.
    exists (hist ++ [c]). split; [by apply prefix_app_r |].
    unfold serialised. cbn [threads shared].
    split; [by rewrite (omap_insert_new done_call _ _ _ _ c Hi), Hperm |].
    split; [| split].
    + intros j c' Hj. apply lookup_insert_thread in Hj as [[_ [=]] | [Hne Hj]].
      by destruct (Hother _ _ Hj Hne).
    + intros j c' rest Hj. apply lookup_insert_thread in Hj as [[_ [=]] | [Hne Hj]].
      by destruct (Hother _ _ Hj Hne).
    + intros _. cbn [has_stream Nat.b2n] in Ch.
      assert (count has_stream (<[i := W_done c (Return ())]> (threads cfg)) = 0%nat)
        as -> by lia.
      by rewrite more_streams_0, serial_snoc.
  - destruct (exclusive_excludes _ _ _ Hc Hi eq_refl) as (_ & _ & _ & Hh & Hother).
    pose proof (Hbody _ _ _ Hi) as Hs. rewrite exec_statements_cons in Hs.
    destruct (a (shared cfg)) as [[[]|e] s1]; injection Hst as <- <- <-.
    + exists hist. split; [done |]. unfold serialised. cbn [threads shared].
      split; [by rewrite (omap_insert_same done_call _ _ _ _ Hi) |].
      split; [| split].
      * intros j c' Hj. apply lookup_insert_thread in Hj as [[_ [=]] | [Hne Hj]].
        by destruct (Hother _ _ Hj Hne).
      * intros j c' rest' Hj.
        apply lookup_insert_thread in Hj as [[_ [= -> ->]] | [Hne Hj]]; [done |].
        by destruct (Hother _ _ Hj Hne).
      * cbn [in_exclusive Nat.b2n] in Ce.
        pose proof (count_pos in_exclusive _ _ _ Hi eq_refl). lia.
    + exists (hist ++ [c]). split; [by apply prefix_app_r |].
      unfold serialised. cbn [threads shared].
      split; [by rewrite (omap_insert_new done_call _ _ _ _ c Hi), Hperm |].
      split; [| split].
      * intros j c' Hj. apply lookup_insert_thread in Hj as [[_ [=]] | [Hne Hj]].
        by destruct (Hother _ _ Hj Hne).
      * intros j c' rest' Hj. apply lookup_insert_thread in Hj as [[_ [=]] | [Hne Hj]].
        by destruct (Hother _ _ Hj Hne).
      * intros _. cbn [has_stream Nat.b2n] in Ch.
        assert (count has_stream (<[i := W_done c (Throw e)]> (threads cfg)) = 0%nat)
          as -> by lia.
        by rewrite more_streams_0, serial_snoc.
Qed.

(** What the thread that takes a step has seen afterwards. *)
Lemma reader_view_step s0 pool0 hist cfg i th m' s' th' :
  consistent cfg → serialised s0 hist cfg →
  threads cfg !! i = Some th → reader_view s0 pool0 hist i th →
  thread_step (mutex cfg) (shared cfg) th = Some (m', s', th') →
  reader_view s0 pool0 hist i th'.
Proof.
  intros Hc (_ & _ & _ & Hfree) Hi Hv Hst.
  destruct th as [c|c|c [|a rest]|c o|t|t|f t|r]; cbn [thread_step] in Hst; try done.
  - destruct (try_lock (mutex cfg)); [| done]. by injection Hst as <- <- <-.
  - case_bool_decide; by injection Hst as <- <- <-.
  - by injection Hst as <- <- <-.
  - destruct (a (shared cfg)) as [[[]|e] s1]; by injection Hst as <- <- <-.
  - destruct (try_lock_shared (mutex cfg)); [| done]. by injection Hst as <- <- <-.
  - destruct (shared_excludes _ _ _ Hc Hi eq_refl) as (_ & _ & Hz & _).
    specialize (Hfree Hz). cbn [reader_view] in Hv.
    set (s := serial hist s0) in *.
    assert (Hfiles : files (world (shared cfg)) !! m_wstrLogFile (statics (shared cfg))
                     = files (world s) !! m_wstrLogFile (statics s)).
    { by rewrite Hfree. }
    unfold wifstream_open in Hst. rewrite Hfiles in Hst.
    destruct (files (world s) !! m_wstrLogFile (statics s)) as [content|] eqn:Hf;
      injection Hst as <- <- <-; cbn [reader_view].
    + exists t, hist, (t ++ words content ++ (if ends_blank content then [[]] else [])).
      split; [done |]. split; [done |]. split.
      * unfold result. fold s. by rewrite (getLogFromFile_present _ _ _ Hf).
      * unfold loop_bound. cbn [good eofbit failbit negb andb pending].
        apply read_loop_words. lia.
    + exists t, hist. split; [done |]. split; [done |].
      unfold result. fold s. by rewrite (getLogFromFile_absent _ _ Hf).
  - destruct Hv as (t0 & h & table & H0 & Hh & Hres & Hloop).
    destruct (good f) eqn:Hg.
    + pose proof (extract_bound f Hg) as Hb.
      unfold loop_bound at 1 in Hloop. rewrite Hg in Hloop. cbn [read_loop] in Hloop.
      rewrite Hg in Hloop.
      destruct (extract f) as [line f']. injection Hst as <- <- <-. cbn [snd] in Hb.
      exists t0, h, table. do 3 (split; [done |]).
      by eapply read_loop_fuel.
    + injection Hst as <- <- <-.
      unfold loop_bound in Hloop. rewrite Hg in Hloop. cbn [read_loop] in Hloop.
      rewrite Hg in Hloop. injection Hloop as <-.
      by exists t0, h.
Qed.

Lemma snapshots_step s0 pool0 hist cfg cfg' :
  consistent cfg → serialised s0 hist cfg → snapshots s0 pool0 hist cfg → step cfg cfg' →
  ∃ hist', serialised s0 hist' cfg' ∧ snapshots s0 pool0 hist' cfg'.
Proof.
  intros Hc Hser Hv Hstep.
  destruct (step_inv _ _ Hstep) as (i & th & m' & s' & th' & Hi & Hst & ->).
  pose proof (reader_view_step _ pool0 _ _ _ _ _ _ _ Hc Hser Hi (Hv _ _ Hi) Hst) as Hv'.
  assert (∃ hist', hist `prefix_of` hist' ∧
            serialised s0 hist'
              {| mutex := m'; shared := s'; threads := <[i := th']> (threads cfg) |})
    as (hist' & Hpre & Hser').
  { destruct (call_of th) as [c|] eqn:Hcall.
    - eapply serialised_writer_step_order; eauto.
    - exists hist. split; [done |]. eapply serialised_reader_step; eauto. }
  exists hist'. split; [done |].
  intros j x Hj. cbn [threads] in Hj.
  apply lookup_insert_thread in Hj as [[-> ->] | [_ Hj]].
  - by eapply reader_view_mono.
  - eapply reader_view_mono; [done |]. by apply Hv.
Qed.

Lemma snapshots_steps s0 pool0 hist cfg cfg' :
  consistent cfg → serialised s0 hist cfg → snapshots s0 pool0 hist cfg → steps cfg cfg' →
  ∃ hist', serialised s0 hist' cfg' ∧ snapshots s0 pool0 hist' cfg'.
Proof.
  intros Hc Hser Hv Hsteps. revert hist Hc Hser Hv.
  induction Hsteps as [cfg | cfg cfg1 cfg2 Hstep _ IH]; intros hist Hc Hser Hv; [eauto |].
  destruct (snapshots_step _ _ _ _ _ Hc Hser Hv Hstep) as (hist1 & Hser1 & Hv1).
  eapply IH; eauto using consistent_step.
Qed.

Lemma snapshots_initial cfg : initial cfg → snapshots (shared cfg) (threads cfg) [] cfg.
Proof.
  intros [_ Hf] i th Hi.
  pose proof (Forall_lookup_1 _ _ _ _ Hf Hi) as Hstart.
  by destruct th.
Qed.

(** X14. Threads that call [writeLog] and [getLogFromFile], one call
    each, interleaved in any way from a configuration with the mutex
    free. At every moment the calls of [writeLog] that have returned
    can be put in an order such that every call of [getLogFromFile]
    that has returned has returned what it returns, on the vector it
    was given, in the state reached by the first calls of that order
    made one after the other: a reader sees the file between two
    calls of [writeLog], never a part of a block. When every thread
    is back, that order lists all calls of [writeLog] and leads to
    the final state. *)
Theorem getLogFromFile_threads_snapshot cfg0 cfg :
  initial cfg0 → steps cfg0 cfg →
  ∃ order,
    order ≡ₚ done_calls (threads cfg) ∧
    (all_done cfg →
     order ≡ₚ writer_calls (threads cfg0) ∧ shared cfg = serial order (shared cfg0)) ∧
    ∀ i r, threads cfg !! i = Some (R_done r) →
      ∃ t0 h, threads cfg0 !! i = Some (R_start t0) ∧ h `prefix_of` order ∧
              result (getLogFromFile t0) (serial h (shared cfg0)) = Return r.
Proof.
  intros Hinit Hsteps.
  pose proof (consistent_steps _ _ (consistent_initial _ Hinit) Hsteps) as Hc.
  destruct (snapshots_steps _ _ _ _ _ (consistent_initial _ Hinit)
              (serialised_initial _ Hinit) (snapshots_initial _ Hinit) Hsteps)
    as (hist & (Hperm & _ & _ & Hfree) & Hv).
  exists hist. split; [done |]. split.
  - intros Hdone. split.
    + by rewrite Hperm, (done_calls_all_done _ Hdone), (writer_calls_steps _ _ Hsteps).
    + rewrite Hfree; rewrite count_done_zero; try done; try by intros [].
      apply more_streams_0.
  - intros i r Hi. exact (Hv _ _ Hi).
Qed.

Lemma getLogFromFile_threads_snapshot_witness :
  ∃ order,
    order ≡ₚ done_calls (threads config_sample_read) ∧
    (all_done config_sample_read →
     order ≡ₚ writer_calls (threads config_sample) ∧
     shared config_sample_read = serial order (shared config_sample)) ∧
    ∀ i r, threads config_sample_read !! i = Some (R_done r) →
      ∃ t0 h, threads config_sample !! i = Some (R_start t0) ∧ h `prefix_of` order ∧
              result (getLogFromFile t0) (serial h (shared config_sample)) = Return r.
Proof.
  apply (getLogFromFile_threads_snapshot config_sample config_sample_read).
  - split; [reflexivity | by repeat constructor].
  - eapply rtc_l; [exists 1%nat; reflexivity |].
    eapply rtc_l; [exists 1%nat; reflexivity |].
    apply rtc_refl.
Defined.

(** ** The conversions into local arrays *)

(** X15. Where nothing can be written past the end of [wTimeBuffer]
    (the reading of the C++ standard) and the code page maps the time
    stamp character by character, every call that passes the filter
    at a level with a display name runs into the overrun of
    [wTimeBuffer], whatever its format and arguments: the array has
    [strlen(timeBuffer)] elements and the conversion writes one more,
    the NUL. At that point the buffer holds a newline, the opening
    banner and a newline, and nothing has been written to console or
    file. *)
Theorem writeLog_overruns_wTimeBuffer env lvl file function line fmt args s :
  LOGLEVEL_val lvl ≤ LOGLEVEL_val (m_LogLevel (statics s)) →
  lvl ≠ LOG_LEVEL_NONE →
  slack env (length (getCurrentLocalTime (localtime env))) = 0%nat →
  length (timestamp env) = length (getCurrentLocalTime (localtime env)) →
  let call := writeLog env lvl file function line fmt args in
  result call s = Throw array_overrun ∧
  m_wstrLogBuffer (statics (exec call s)) = [NL] ++ banner (display_name lvl) ++ [NL] ∧
  emitted call s = [] ∧
  world (exec call s) = world s.
Proof.
  intros Hle Hlvl Hslack Hlen call. subst call.
  assert (Ht : ¬ time_fits env).
  { unfold time_fits, array_room. rewrite Hslack, Hlen. lia. }
  pose proof (writeLog_time_overrun env lvl file function line fmt args s _ Hle
                (at_display_name _ Hlvl) Ht) as Hrun.
  assert (Hw : world (exec (writeLog env lvl file function line fmt args) s) = world s).
  { unfold exec. by rewrite Hrun. }
  unfold result. rewrite Hrun. split; [done |].
  split; [unfold exec; by rewrite Hrun |].
  split; [by apply emitted_unchanged_world | done].
Qed.

Lemma writeLog_overruns_wTimeBuffer_witness :
  result (writeLog env_strict LOG_LEVEL_ERROR (L "log.cpp") (L "main") 12 (L "n=%d")
            [AInt 5]) Sys_sample = Throw array_overrun.
Proof.
  apply (writeLog_overruns_wTimeBuffer env_strict LOG_LEVEL_ERROR (L "log.cpp") (L "main")
           12 (L "n=%d") [AInt 5] Sys_sample).
  - vm_compute. discriminate.
  - discriminate.
  - reflexivity.
  - vm_compute. reflexivity.
Defined.
